(** * firebase-autoform: the schema-driven form engine

    A shallow embedding of [packages/firebase-autoform/src/firebase-autoform.js]
    (class [FirebaseAutoform]) and the properties of its validation, value
    store, group partition and submission flow.

    Conventions of the embedding.
    - JavaScript numbers are IEEE 754 binary64 values: the kernel's primitive
      [float].
    - JavaScript strings are sequences of code units; [string] covers the code
      units 0..255.
    - Form values are JavaScript primitives ([undefined], [null], booleans,
      numbers, strings).
    - A plain object is the list of its own enumerable properties in
      [Object.entries] order, on top of [Object.prototype]; its keys are
      distinct ([well_formed]).  Property names are ordinary names: neither
      array indices (which JavaScript enumerates first) nor the accessor
      [__proto__].
    - An exception is a [Throw] completion carrying the error's [message]. *)

From Stdlib Require Import List String Ascii Bool Arith Lia ZArith Permutation.
From Stdlib Require Import PrimFloat Uint63 FloatOps FloatAxioms SpecFloat.
From Stdlib Require Import DecimalString.
Import ListNotations.
Local Open Scope string_scope.
Local Open Scope list_scope.

Set Implicit Arguments.

(** ** Completions: normal results and thrown errors *)

Inductive Completion (A : Type) : Type :=
| Normal (a : A)
| Throw (message : string).

Arguments Normal {A} a.
Arguments Throw {A} message.

Definition bind {A B : Type} (c : Completion A) (k : A -> Completion B)
  : Completion B :=
  match c with
  | Normal a => k a
  | Throw m => Throw m
  end.

Notation "x <- c ;; k" := (bind c (fun x => k))
  (at level 61, c at next level, right associativity).

(** ** Primitive values *)

Definition number := float.

Inductive JsValue : Type :=
| JUndefined
| JNull
| JBool (b : bool)
| JNum (n : number)
| JStr (s : string).

(** The length of a string as a number (exact below 2^53). *)
Definition number_of_nat (n : nat) : number :=
  PrimFloat.of_uint63 (Uint63.of_Z (Z.of_nat n)).

(** WhiteSpace and LineTerminator code units below 256: TAB, LF, VT, FF, CR,
    SP, NBSP.  They are what [\s] matches and what [ToNumber] trims. *)
Definition is_whitespace (c : ascii) : bool :=
  let n := nat_of_ascii c in
  ((9 <=? n)%nat && (n <=? 13)%nat) || (n =? 32)%nat || (n =? 160)%nat.

Fixpoint is_blank (s : string) : bool :=
  match s with
  | EmptyString => true
  | String c s' => is_whitespace c && is_blank s'
  end.

(** The built-ins of the JavaScript engine that the component calls and that
    are not part of the repository. *)
Class JsEngine : Type := {
  (** The numeric value of a string that is not blank ([NaN] when it is not a
      numeric literal). *)
  StringNumericLiteral : string -> number;
  (** [Number.prototype.toString], as a template literal applies it. *)
  Number_toString : number -> string;
  (** [new RegExp(pattern).test(s)]; throws on a pattern that does not
      compile. *)
  RegExp_test : string -> string -> Completion bool;
  (** The message of the TypeError raised by reading property [prop] of
      [undefined] or [null] ([base] names which). *)
  TypeError_message : string -> string -> string
}.

Section Primitives.
Context {engine : JsEngine}.

(** ToBoolean *)
Definition truthy_number (x : number) : bool :=
  PrimFloat.ltb x 0%float || PrimFloat.ltb 0%float x.

Definition truthy (v : JsValue) : bool :=
  match v with
  | JUndefined | JNull => false
  | JBool b => b
  | JNum x => truthy_number x
  | JStr s => negb (String.eqb s "")
  end.

(** ToNumber: the empty string, and any blank string, is [+0]. *)
Definition StringToNumber (s : string) : number :=
  if is_blank s then 0%float else StringNumericLiteral s.

Definition ToNumber (v : JsValue) : number :=
  match v with
  | JUndefined => PrimFloat.nan
  | JNull => 0%float
  | JBool true => 1%float
  | JBool false => 0%float
  | JNum x => x
  | JStr s => StringToNumber s
  end.

(** ToString *)
Definition ToString (v : JsValue) : string :=
  match v with
  | JUndefined => "undefined"
  | JNull => "null"
  | JBool true => "true"
  | JBool false => "false"
  | JNum x => Number_toString x
  | JStr s => s
  end.

(** [a < b] and [a > b] for operands that are not both strings (in the
    source the right operand is a number or [undefined]): both are
    converted to numbers, and a comparison with [NaN] is false. *)
Definition js_less (a b : JsValue) : bool :=
  PrimFloat.ltb (ToNumber a) (ToNumber b).

Definition js_greater (a b : JsValue) : bool :=
  PrimFloat.ltb (ToNumber b) (ToNumber a).

(** [value.length]: a string has a length, a boolean or a number has no
    such property, and [undefined] and [null] have no properties at all. *)
Definition get_length (v : JsValue) : Completion JsValue :=
  match v with
  | JStr s => Normal (JNum (number_of_nat (String.length s)))
  | JBool _ | JNum _ => Normal JUndefined
  | JUndefined => Throw (TypeError_message "undefined" "length")
  | JNull => Throw (TypeError_message "null" "length")
  end.

(** [value === ''], [value === null], [value === undefined] *)
Definition is_empty_string (v : JsValue) : bool :=
  match v with JStr "" => true | _ => false end.

Definition is_null (v : JsValue) : bool :=
  match v with JNull => true | _ => false end.

Definition is_undefined (v : JsValue) : bool :=
  match v with JUndefined => true | _ => false end.

End Primitives.

(** ** Regular expressions of the source, matched by derivatives *)

Inductive RegExp : Type :=
| ReEmpty
| ReEps
| ReClass (p : ascii -> bool)
| ReCat (r1 r2 : RegExp)
| ReAlt (r1 r2 : RegExp)
| ReStar (r : RegExp).

Definition RePlus (r : RegExp) : RegExp := ReCat r (ReStar r).

Fixpoint nullable (r : RegExp) : bool :=
  match r with
  | ReEmpty => false
  | ReEps => true
  | ReClass _ => false
  | ReCat r1 r2 => nullable r1 && nullable r2
  | ReAlt r1 r2 => nullable r1 || nullable r2
  | ReStar _ => true
  end.

Fixpoint deriv (c : ascii) (r : RegExp) : RegExp :=
  match r with
  | ReEmpty | ReEps => ReEmpty
  | ReClass p => if p c then ReEps else ReEmpty
  | ReCat r1 r2 =>
      if nullable r1
      then ReAlt (ReCat (deriv c r1) r2) (deriv c r2)
      else ReCat (deriv c r1) r2
  | ReAlt r1 r2 => ReAlt (deriv c r1) (deriv c r2)
  | ReStar r' => ReCat (deriv c r') (ReStar r')
  end.

(** A match of the whole string: the pattern is anchored by [^] and [$]. *)
Fixpoint matches (r : RegExp) (s : string) : bool :=
  match s with
  | EmptyString => nullable r
  | String c s' => matches (deriv c r) s'
  end.

(** ** Plain objects *)

(** The own enumerable properties of an object, in [Object.entries] order. *)
Definition JsObject (A : Type) : Type := list (string * A).

Section Objects.
Variable A : Type.

Definition Object_entries (o : JsObject A) : list (string * A) := o.

Definition Object_keys (o : JsObject A) : list string := map fst o.

Fixpoint own_get (key : string) (o : JsObject A) : option A :=
  match o with
  | [] => None
  | (k, v) :: o' => if String.eqb k key then Some v else own_get key o'
  end.

Definition has_own (key : string) (o : JsObject A) : bool :=
  match own_get key o with Some _ => true | None => false end.

(** [o[key] = v]: an existing property keeps its place, a new one is added
    last. *)
Fixpoint obj_set (key : string) (v : A) (o : JsObject A) : JsObject A :=
  match o with
  | [] => [(key, v)]
  | (k, w) :: o' =>
      if String.eqb k key then (k, v) :: o' else (k, w) :: obj_set key v o'
  end.

(** [delete o[key]] *)
Fixpoint obj_delete (key : string) (o : JsObject A) : JsObject A :=
  match o with
  | [] => []
  | (k, w) :: o' =>
      if String.eqb k key then obj_delete key o' else (k, w) :: obj_delete key o'
  end.

End Objects.

(** The property names every plain object inherits from [Object.prototype]. *)
Definition Object_prototype_names : list string :=
  [ "constructor"; "hasOwnProperty"; "isPrototypeOf"; "propertyIsEnumerable";
    "toLocaleString"; "toString"; "valueOf";
    "__defineGetter__"; "__defineSetter__"; "__lookupGetter__";
    "__lookupSetter__" ].

Definition inherited (key : string) : bool :=
  existsb (String.eqb key) Object_prototype_names.

(** [key in o]: an own property or one found on the prototype chain. *)
Definition js_in {A : Type} (key : string) (o : JsObject A) : bool :=
  has_own key o || inherited key.

(** ** The data model *)

(** [FieldSchema]: the properties that validation, initialization, grouping
    and submission read.  The presentation properties ([label],
    [placeholder], [help], [options], [step], [disabled], [readonly]) are
    read by the templates only.  An absent optional property reads as
    [undefined]: [None] here, [false] for [required], [JUndefined] for
    [default]. *)
Record FieldSchema : Type := {
  type : option string;
  required : bool;
  default : JsValue;
  min : option number;
  max : option number;
  minLength : option number;
  maxLength : option number;
  pattern : option string;
  group : option string
}.

Definition FormSchema : Type := JsObject FieldSchema.

(** Reading an optional property as a JavaScript value. *)
Definition read_number (p : option number) : JsValue :=
  match p with Some n => JNum n | None => JUndefined end.

Definition read_string (p : option string) : JsValue :=
  match p with Some s => JStr s | None => JUndefined end.

(** [field.type === t] *)
Definition type_is (field : FieldSchema) (t : string) : bool :=
  match type field with Some t' => String.eqb t' t | None => false end.

(** [this.schema[key]]: the field declared under [key]; for a name inherited
    from [Object.prototype] a built-in member, which has none of the
    [FieldSchema] properties; otherwise [undefined]. *)
Definition builtin_member : FieldSchema :=
  {| type := None; required := false; default := JUndefined;
     min := None; max := None; minLength := None; maxLength := None;
     pattern := None; group := None |}.

Definition schema_get (schema : FormSchema) (key : string) : option FieldSchema :=
  match own_get key schema with
  | Some field => Some field
  | None => if inherited key then Some builtin_member else None
  end.

(** The database handle of the backend SDK. *)
Inductive Database : Type := DatabaseHandle.

(** The reactive properties and internal state of the element.  The labels
    ([submitLabel], [resetLabel], [successMessage]) and [disabled] only feed
    the template. *)
Record FirebaseAutoform : Type := {
  path : string;
  schema : FormSchema;
  resetOnSubmit : bool;
  showSuccess : bool;
  data : option (JsObject JsValue);
  dataKey : string;
  _database : option Database;
  _loading : bool;
  _errors : JsObject string;
  _values : JsObject JsValue;
  _showSuccessMessage : bool;
  _globalError : string
}.

Definition set_errors (el : FirebaseAutoform) (errors : JsObject string)
  : FirebaseAutoform :=
  {| path := path el; schema := schema el; resetOnSubmit := resetOnSubmit el;
     showSuccess := showSuccess el; data := data el; dataKey := dataKey el;
     _database := _database el; _loading := _loading el;
     _errors := errors; _values := _values el;
     _showSuccessMessage := _showSuccessMessage el;
     _globalError := _globalError el |}.

Definition set_values (el : FirebaseAutoform) (values : JsObject JsValue)
  : FirebaseAutoform :=
  {| path := path el; schema := schema el; resetOnSubmit := resetOnSubmit el;
     showSuccess := showSuccess el; data := data el; dataKey := dataKey el;
     _database := _database el; _loading := _loading el;
     _errors := _errors el; _values := values;
     _showSuccessMessage := _showSuccessMessage el;
     _globalError := _globalError el |}.

Definition set_dataKey (el : FirebaseAutoform) (key : string)
  : FirebaseAutoform :=
  {| path := path el; schema := schema el; resetOnSubmit := resetOnSubmit el;
     showSuccess := showSuccess el; data := data el; dataKey := key;
     _database := _database el; _loading := _loading el;
     _errors := _errors el; _values := _values el;
     _showSuccessMessage := _showSuccessMessage el;
     _globalError := _globalError el |}.

(** The three banner fields change together at the start of a submission and
    again at its end. *)
Definition set_status (el : FirebaseAutoform) (loading : bool)
  (showSuccessMessage : bool) (globalError : string) : FirebaseAutoform :=
  {| path := path el; schema := schema el; resetOnSubmit := resetOnSubmit el;
     showSuccess := showSuccess el; data := data el; dataKey := dataKey el;
     _database := _database el; _loading := loading;
     _errors := _errors el; _values := _values el;
     _showSuccessMessage := showSuccessMessage;
     _globalError := globalError |}.

(** [get values()] and [get isValid()] *)
Definition values (el : FirebaseAutoform) : JsObject JsValue := _values el.

Definition isValid (el : FirebaseAutoform) : bool :=
  (List.length (Object_keys (_errors el)) =? 0)%nat.

(** ** Value store *)

(** The first loop of [_initializeValues]: the defaults of the schema. *)
Definition initial_value (field : FieldSchema) : JsValue :=
  if negb (is_undefined (default field)) then default field
  else if type_is field "checkbox" then JBool false
  else JStr "".

Definition set_defaults (schema : FormSchema) : JsObject JsValue :=
  fold_left (fun values '(key, field) => obj_set key (initial_value field) values)
    (Object_entries schema) [].

(** The second loop: the properties of the record to edit. *)
Definition override_with (schema : FormSchema) (record : JsObject JsValue)
  (values : JsObject JsValue) : JsObject JsValue :=
  fold_left
    (fun values '(key, value) =>
       if js_in key schema then obj_set key value values else values)
    (Object_entries record) values.

Definition _initializeValues (el : FirebaseAutoform) : FirebaseAutoform :=
  let values := set_defaults (schema el) in
  let values :=
    match data el with
    | Some record => override_with (schema el) record values
    | None => values
    end in
  set_errors (set_values el values) [].

(** ** Validation *)

(** [/^[^\s@]+@[^\s@]+\.[^\s@]+$/] *)
Definition not_space_or_at (c : ascii) : bool :=
  negb (is_whitespace c || Ascii.eqb c "@"%char).

Definition email_regexp : RegExp :=
  ReCat (RePlus (ReClass not_space_or_at))
    (ReCat (ReClass (Ascii.eqb "@"%char))
       (ReCat (RePlus (ReClass not_space_or_at))
          (ReCat (ReClass (Ascii.eqb "."%char))
             (RePlus (ReClass not_space_or_at))))).

(** [a && c] where evaluating [c] may throw. *)
Definition and_then (a : bool) (c : Completion bool) : Completion bool :=
  if a then c else Normal false.

Infix "&&>" := and_then (at level 40, left associativity).

Section Validation.
Context {engine : JsEngine}.

(** [RegExp.prototype.test] converts its argument to a string. *)
Definition _isValidEmail (email : JsValue) : bool :=
  matches email_regexp (ToString email).

(** The [if ... else if ...] chain of [_validateField]: the message it
    stores, if any. *)
Definition violation (field : FieldSchema) (value : JsValue)
  : Completion (option string) :=
  if required field
     && (is_empty_string value || is_null value || is_undefined value)
  then Normal (Some "This field is required")
  else if type_is field "email" && truthy value && negb (_isValidEmail value)
  then Normal (Some "Please enter a valid email")
  else
    too_short <-
      truthy (read_number (minLength field))
      &&> (len <- get_length value ;;
           Normal (js_less len (read_number (minLength field)))) ;;
    if too_short
    then Normal (Some ("Minimum " ++ ToString (read_number (minLength field))
                         ++ " characters required")%string)
    else
      too_long <-
        truthy (read_number (maxLength field))
        &&> (len <- get_length value ;;
             Normal (js_greater len (read_number (maxLength field)))) ;;
      if too_long
      then Normal (Some ("Maximum " ++ ToString (read_number (maxLength field))
                           ++ " characters allowed")%string)
      else if negb (is_undefined (read_number (min field)))
              && js_less value (read_number (min field))
      then Normal (Some ("Minimum value is "
                           ++ ToString (read_number (min field)))%string)
      else if negb (is_undefined (read_number (max field)))
              && js_greater value (read_number (max field))
      then Normal (Some ("Maximum value is "
                           ++ ToString (read_number (max field)))%string)
      else
        mismatch <-
          (truthy (read_string (pattern field)) && truthy value)
          &&> (found <- RegExp_test (ToString (read_string (pattern field)))
                          (ToString value) ;;
               Normal (negb found)) ;;
        if mismatch then Normal (Some "Invalid format") else Normal None.

Definition _validateField (el : FirebaseAutoform) (fieldName : string)
  (value : JsValue) : Completion FirebaseAutoform :=
  let errors := obj_delete fieldName (_errors el) in
  match schema_get (schema el) fieldName with
  | None => Throw (TypeError_message "undefined" "required")
  | Some field =>
      message <- violation field value ;;
      Normal (set_errors el
                match message with
                | Some text => obj_set fieldName text errors
                | None => errors
                end)
  end.

(** [this._values[fieldName]] where the store has the property or
    [Object.prototype] has none of that name: the stored value, else
    [undefined].  Under a name of [Object.prototype] that the store lacks
    JavaScript reads the inherited member instead; [store_covers] below is
    the condition that no field of the schema is read so, and every state
    from [_initializeValues] on meets it (lemma [reachable_store_covers]). *)
Definition value_of (el : FirebaseAutoform) (fieldName : string) : JsValue :=
  match own_get fieldName (_values el) with
  | Some value => value
  | None => JUndefined
  end.

(** The [forEach] of [_validateForm]; a throw leaves the element as the
    fields validated before it left it. *)
Fixpoint validate_each (fields : list (string * FieldSchema))
  (el : FirebaseAutoform) : FirebaseAutoform * Completion unit :=
  match fields with
  | [] => (el, Normal tt)
  | (fieldName, _) :: rest =>
      match _validateField el fieldName (value_of el fieldName) with
      | Normal el' => validate_each rest el'
      | Throw m => (el, Throw m)
      end
  end.

Definition _validateForm (el : FirebaseAutoform)
  : FirebaseAutoform * Completion bool :=
  match validate_each (Object_entries (schema el)) el with
  | (el', Normal _) => (el', Normal (isValid el'))
  | (el', Throw m) => (el', Throw m)
  end.

(** ** Input handling *)

Record EventTarget : Type := { checked : bool; value : string }.

Definition extract_value (field : FieldSchema) (target : EventTarget)
  : JsValue :=
  if type_is field "checkbox" then JBool (checked target)
  else if type_is field "number" || type_is field "range"
  then if String.eqb (value target) "" then JStr ""
       else JNum (StringToNumber (value target))
  else JStr (value target).

Definition _handleInput (el : FirebaseAutoform) (target : EventTarget)
  (fieldName : string) : FirebaseAutoform * Completion unit :=
  match schema_get (schema el) fieldName with
  | None => (el, Throw (TypeError_message "undefined" "type"))
  | Some field =>
      let value := extract_value field target in
      let el := set_values el (obj_set fieldName value (_values el)) in
      match _validateField el fieldName value with
      | Normal el' => (el', Normal tt)
      | Throw m => (el, Throw m)
      end
  end.

End Validation.

(** ** Group partition *)

(** A [Map] from group name to the fields of the group: the entries in
    insertion order. *)
Definition Entry : Type := (string * FieldSchema)%type.

Definition GroupMap : Type := list (string * list Entry).

Definition Map_has (groups : GroupMap) (name : string) : bool :=
  existsb (fun '(g, _) => String.eqb g name) groups.

(** [groups.set(name, fields)] *)
Fixpoint Map_set (groups : GroupMap) (name : string) (fields : list Entry)
  : GroupMap :=
  match groups with
  | [] => [(name, fields)]
  | (g, fs) :: rest =>
      if String.eqb g name then (g, fields) :: rest
      else (g, fs) :: Map_set rest name fields
  end.

(** [groups.get(name).push(entry)]: the array held by the map grows in
    place. *)
Fixpoint Map_push (groups : GroupMap) (name : string) (entry : Entry)
  : GroupMap :=
  match groups with
  | [] => []
  | (g, fs) :: rest =>
      if String.eqb g name then (g, fs ++ [entry]) :: rest
      else (g, fs) :: Map_push rest name entry
  end.

(** [field.group || ''] *)
Definition group_of (field : FieldSchema) : string :=
  match group field with Some g => g | None => "" end.

Definition _groupFields (el : FirebaseAutoform) : GroupMap :=
  fold_left
    (fun groups '(fieldName, field) =>
       let group := group_of field in
       let groups :=
         if negb (Map_has groups group) then Map_set groups group []
         else groups in
       Map_push groups group (fieldName, field))
    (Object_entries (schema el))
    (Map_set [] "" []).

(** The fields in the order [render] walks them: bucket after bucket. *)
Definition flatten (groups : GroupMap) : list Entry :=
  List.concat (map snd groups).

(** ** Submission *)

(** A submission runs from the click to its last effect without another
    handler in between (the submit button is disabled meanwhile).

    What a submission does to the world outside the element: *)
Inductive Effect : Type :=
| DbUpdate (location : string) (payload : JsObject JsValue)
| DbSet (location key : string) (payload : JsObject JsValue)
| FormSubmit (payload : JsObject JsValue) (key location : string)
| FormError (message : string)
| FormReset
| SetTimeout (milliseconds : nat).

(** What the world answers during one submission: the readings of the
    clock in call order, whether the SDK module loads, the key that [push]
    generates and whether the write settles. *)
Record Backend : Type := {
  Date_now : nat -> number;
  import_database : Completion unit;
  push_key : string;
  write : Completion unit
}.

Definition _handleReset (el : FirebaseAutoform)
  : FirebaseAutoform * list Effect :=
  (set_status (_initializeValues el) (_loading el) false "", [FormReset]).

Section Submission.
Context {engine : JsEngine}.
Variable backend : Backend.

(** The [forEach] that prepares [submitData]. *)
Definition collect (el : FirebaseAutoform)
  : Completion (JsObject JsValue) :=
  fold_left
    (fun acc '(key, value) =>
       submitData <- acc ;;
       keep <-
         (if negb (is_empty_string value) then Normal true
          else match schema_get (schema el) key with
               | Some field => Normal (required field)
               | None => Throw (TypeError_message "undefined" "required")
               end) ;;
       Normal (if keep then obj_set key value submitData else submitData))
    (Object_entries (_values el)) (Normal []).

(** The persistence branch: the element, the effects, the payload as it
    is afterwards, and how the branch completes. *)
Definition persist (el : FirebaseAutoform) (submitData : JsObject JsValue)
  : FirebaseAutoform * list Effect * JsObject JsValue * Completion unit :=
  match _database el with
  | Some _ =>
      if negb (String.eqb (path el) "") then
        match import_database backend with
        | Throw m => (el, [], submitData, Throw m)
        | Normal _ =>
            if negb (String.eqb (dataKey el) "") then
              (el, [DbUpdate (path el ++ "/" ++ dataKey el)%string submitData],
               submitData, write backend)
            else
              let submitData :=
                obj_set "_createdAt" (JNum (Date_now backend 1)) submitData in
              match write backend with
              | Normal _ =>
                  (set_dataKey el (push_key backend),
                   [DbSet (path el) (push_key backend) submitData],
                   submitData, Normal tt)
              | Throw m =>
                  (el, [DbSet (path el) (push_key backend) submitData],
                   submitData, Throw m)
              end
        end
      else (el, [], submitData, Normal tt)
  | None => (el, [], submitData, Normal tt)
  end.

(** What follows [_dispatchSubmit]: the banner and the optional reset. *)
Definition post_actions (el : FirebaseAutoform)
  : FirebaseAutoform * list Effect :=
  let '(el, shown) :=
    if showSuccess el
    then (set_status el (_loading el) true (_globalError el),
          [SetTimeout 3000])
    else (el, []) in
  if resetOnSubmit el
  then let '(el, fired) := _handleReset el in (el, shown ++ fired)
  else (el, shown).

(** The body of the [try] block. *)
Definition try_block (el : FirebaseAutoform)
  : FirebaseAutoform * list Effect * Completion unit :=
  match collect el with
  | Throw m => (el, [], Throw m)
  | Normal submitData =>
      let submitData :=
        obj_set "_updatedAt" (JNum (Date_now backend 0)) submitData in
      match persist el submitData with
      | (el, written, _, Throw m) => (el, written, Throw m)
      | (el, written, submitData, Normal _) =>
          let '(el', after) := post_actions el in
          (el',
           written ++ [FormSubmit submitData (dataKey el) (path el)] ++ after,
           Normal tt)
      end
  end.

Record Outcome : Type := {
  element : FirebaseAutoform;
  effects : list Effect;
  completion : Completion unit
}.

Definition _handleSubmit (el : FirebaseAutoform) : Outcome :=
  match _validateForm el with
  | (el, Throw m) =>
      {| element := el; effects := []; completion := Throw m |}
  | (el, Normal false) =>
      {| element := el; effects := []; completion := Normal tt |}
  | (el, Normal true) =>
      let el := set_status el true false "" in
      let '(el, done, result) := try_block el in
      let '(el, done) :=
        match result with
        | Normal _ => (el, done)
        | Throw m =>
            (set_status el (_loading el) (_showSuccessMessage el) m,
             done ++ [FormError m])
        end in
      {| element := set_status el false (_showSuccessMessage el)
                      (_globalError el);
         effects := done;
         completion := Normal tt |}
  end.

End Submission.

(** ** An engine for closed examples

    The examples below run on an engine that covers what they use: unsigned
    decimal integer numerals below 2^63, the rendering of integral numbers
    below 10^21, patterns made of literal characters only (found anywhere in
    the subject), and one wording of the TypeError message.  Outside that
    range it answers [NaN], a truncated rendering, or a SyntaxError. *)
Module ReferenceEngine.

Definition is_digit (c : ascii) : bool :=
  let n := nat_of_ascii c in ((48 <=? n)%nat && (n <=? 57)%nat).

Fixpoint digits_value (s : string) (acc : Z) : option Z :=
  match s with
  | EmptyString => Some acc
  | String c s' =>
      if is_digit c
      then digits_value s' (10 * acc + Z.of_nat (nat_of_ascii c - 48))%Z
      else None
  end.

Definition numeric_literal (s : string) : number :=
  match digits_value s 0%Z with
  | Some z =>
      if (z <? 2 ^ 63)%Z then PrimFloat.of_uint63 (Uint63.of_Z z)
      else PrimFloat.nan
  | None => PrimFloat.nan
  end.

Definition render_Z (z : Z) : string :=
  NilZero.string_of_uint (N.to_uint (Z.to_N z)).

Definition render_number (x : number) : string :=
  match Prim2SF x with
  | S754_zero _ => "0"
  | S754_infinity false => "Infinity"
  | S754_infinity true => "-Infinity"
  | S754_nan => "NaN"
  | S754_finite negative m e =>
      let magnitude :=
        if (0 <=? e)%Z then (Zpos m * 2 ^ e)%Z
        else (Zpos m / 2 ^ (- e))%Z in
      ((if negative then "-" else "") ++ render_Z magnitude)%string
  end.

Definition is_literal (c : ascii) : bool :=
  negb (existsb (Ascii.eqb c)
          (list_ascii_of_string "\^$.|?*+()[]{}/")).

Fixpoint all_literal (s : string) : bool :=
  match s with
  | EmptyString => true
  | String c s' => is_literal c && all_literal s'
  end.

Fixpoint occurs (p s : string) : bool :=
  String.prefix p s
  || match s with
     | EmptyString => false
     | String _ s' => occurs p s'
     end.

Definition test (p s : string) : Completion bool :=
  if all_literal p then Normal (occurs p s)
  else Throw "Invalid regular expression".

Definition cannot_read (base prop : string) : string :=
  ("Cannot read properties of " ++ base ++ " (reading '" ++ prop ++ "')")%string.

#[export] Instance engine : JsEngine := {|
  StringNumericLiteral := numeric_literal;
  Number_toString := render_number;
  RegExp_test := test;
  TypeError_message := cannot_read
|}.

End ReferenceEngine.

(** ** The validation rules as the specification lists them

    Each rule has a guard (when it applies), a violation test, and a
    message.  In the specification's vocabulary a length bound or a pattern
    is "set", and a value "non-empty", when JavaScript takes it for true (so
    a bound of 0 is not set); a numeric bound is "defined" when it is not
    [undefined]. *)

Record Rule : Type := {
  guard : FieldSchema -> JsValue -> bool;
  violated : FieldSchema -> JsValue -> Completion bool;
  message : FieldSchema -> string
}.

Section Rules.
Context {engine : JsEngine}.

Definition is_set (p : JsValue) : bool := truthy p.
Definition is_defined (p : JsValue) : bool := negb (is_undefined p).
Definition non_empty (v : JsValue) : bool := truthy v.

Definition unset (v : JsValue) : bool :=
  is_empty_string v || is_null v || is_undefined v.

Definition rule_required : Rule := {|
  guard := fun _ _ => true;
  violated := fun field v => Normal (unset v && required field);
  message := fun _ => "This field is required"
|}.

Definition rule_email : Rule := {|
  guard := fun field v => type_is field "email" && non_empty v;
  violated := fun _ v => Normal (negb (matches email_regexp (ToString v)));
  message := fun _ => "Please enter a valid email"
|}.

Definition rule_minLength : Rule := {|
  guard := fun field _ => is_set (read_number (minLength field));
  violated := fun field v =>
    len <- get_length v ;;
    Normal (js_less len (read_number (minLength field)));
  message := fun field =>
    ("Minimum " ++ ToString (read_number (minLength field))
       ++ " characters required")%string
|}.

Definition rule_maxLength : Rule := {|
  guard := fun field _ => is_set (read_number (maxLength field));
  violated := fun field v =>
    len <- get_length v ;;
    Normal (js_greater len (read_number (maxLength field)));
  message := fun field =>
    ("Maximum " ++ ToString (read_number (maxLength field))
       ++ " characters allowed")%string
|}.

Definition rule_min : Rule := {|
  guard := fun field _ => is_defined (read_number (min field));
  violated := fun field v => Normal (js_less v (read_number (min field)));
  message := fun field =>
    ("Minimum value is " ++ ToString (read_number (min field)))%string
|}.

Definition rule_max : Rule := {|
  guard := fun field _ => is_defined (read_number (max field));
  violated := fun field v => Normal (js_greater v (read_number (max field)));
  message := fun field =>
    ("Maximum value is " ++ ToString (read_number (max field)))%string
|}.

Definition rule_pattern : Rule := {|
  guard := fun field v => is_set (read_string (pattern field)) && non_empty v;
  violated := fun field v =>
    found <- RegExp_test (ToString (read_string (pattern field))) (ToString v) ;;
    Normal (negb found);
  message := fun _ => "Invalid format"
|}.

(** The seven rules in their priority order. *)
Definition rules : list Rule :=
  [ rule_required; rule_email; rule_minLength; rule_maxLength;
    rule_min; rule_max; rule_pattern ].

(** Evaluation in order, stopping at the first violated rule; a rule whose
    guard fails is skipped without evaluating its test. *)
Fixpoint first_violated (rs : list Rule) (field : FieldSchema) (v : JsValue)
  : Completion (option string) :=
  match rs with
  | [] => Normal None
  | r :: rest =>
      if guard r field v then
        broken <- violated r field v ;;
        if broken then Normal (Some (message r field))
        else first_violated rest field v
      else first_violated rest field v
  end.

Definition validateField_spec (field : FieldSchema) (v : JsValue)
  : Completion (option string) :=
  first_violated rules field v.

(** A rule that does not apply, or applies and holds. *)
Definition passes (field : FieldSchema) (v : JsValue) (r : Rule) : Prop :=
  guard r field v = false \/ violated r field v = Normal false.

End Rules.

(** ** Closed examples *)

Module Examples.

Definition text_field : FieldSchema :=
  {| type := Some "text"; required := false; default := JUndefined;
     min := None; max := None; minLength := None; maxLength := None;
     pattern := None; group := None |}.

Definition with_type (t : string) (field : FieldSchema) : FieldSchema :=
  {| type := Some t; required := required field; default := default field;
     min := min field; max := max field; minLength := minLength field;
     maxLength := maxLength field; pattern := pattern field;
     group := group field |}.

Definition with_required (field : FieldSchema) : FieldSchema :=
  {| type := type field; required := true; default := default field;
     min := min field; max := max field; minLength := minLength field;
     maxLength := maxLength field; pattern := pattern field;
     group := group field |}.

Definition with_min (n : number) (field : FieldSchema) : FieldSchema :=
  {| type := type field; required := required field; default := default field;
     min := Some n; max := max field; minLength := minLength field;
     maxLength := maxLength field; pattern := pattern field;
     group := group field |}.

Definition with_minLength (n : number) (field : FieldSchema) : FieldSchema :=
  {| type := type field; required := required field; default := default field;
     min := min field; max := max field; minLength := Some n;
     maxLength := maxLength field; pattern := pattern field;
     group := group field |}.

Definition with_group (g : string) (field : FieldSchema) : FieldSchema :=
  {| type := type field; required := required field; default := default field;
     min := min field; max := max field; minLength := minLength field;
     maxLength := maxLength field; pattern := pattern field;
     group := Some g |}.

(** The element as its constructor leaves it, given a schema. *)
Definition element_with (fields : FormSchema) : FirebaseAutoform :=
  {| path := ""; schema := fields; resetOnSubmit := false;
     showSuccess := true; data := None; dataKey := "";
     _database := None; _loading := false; _errors := []; _values := [];
     _showSuccessMessage := false; _globalError := "" |}.

(** [{name: {type: 'text', required: true},
      email: {type: 'email', required: true}}] *)
Definition contact_schema : FormSchema :=
  [ ("name", with_required text_field);
    ("email", with_required (with_type "email" text_field)) ].

Definition contact_form : FirebaseAutoform :=
  _initializeValues (element_with contact_schema).

(** The contact form with the name typed in and the email left empty. *)
Definition half_filled_form : FirebaseAutoform :=
  set_values contact_form [("name", JStr "Ada"); ("email", JStr "")].

(** The contact form filled in. *)
Definition filled_form : FirebaseAutoform :=
  set_values contact_form
    [("name", JStr "Ada"); ("email", JStr "ada@example.com")].

(** [{name: {type: 'text'}, nick: {type: 'text', minLength: 2,
    default: null}}], initialized. *)
Definition nickname_field : FieldSchema :=
  {| type := Some "text"; required := false; default := JNull;
     min := None; max := None; minLength := Some 2%float; maxLength := None;
     pattern := None; group := None |}.

Definition nickname_form : FirebaseAutoform :=
  _initializeValues
    (element_with [("name", text_field); ("nick", nickname_field)]).


(** The contact form for the path [/users] as its constructor and the
    assignment of its properties leave it, and after [connectedCallback]. *)
Definition connecting_form : FirebaseAutoform :=
  {| path := "/users"; schema := contact_schema; resetOnSubmit := false;
     showSuccess := true; data := None; dataKey := "";
     _database := None; _loading := false; _errors := []; _values := [];
     _showSuccessMessage := false; _globalError := "" |}.

Definition users_form : FirebaseAutoform := _initializeValues connecting_form.

(** The filled-in form bound to the path [/users] of a database. *)
Definition online_form : FirebaseAutoform :=
  {| path := "/users"; schema := contact_schema; resetOnSubmit := false;
     showSuccess := true; data := None; dataKey := "";
     _database := Some DatabaseHandle; _loading := false; _errors := [];
     _values := [("name", JStr "Ada"); ("email", JStr "ada@example.com")];
     _showSuccessMessage := false; _globalError := "" |}.

(** [{type: 'number', min: 1, minLength: 2}]: a numeric code of at least
    two digits. *)
Definition code_field : FieldSchema :=
  with_minLength 2%float (with_min 1%float (with_type "number" text_field)).

(** [{type: 'number', min: 1}] *)
Definition quantity_field : FieldSchema :=
  with_min 1%float (with_type "number" text_field).

(** [{type: 'checkbox', required: true}] and the same with [min: 1]. *)
Definition terms_field : FieldSchema :=
  with_required (with_type "checkbox" text_field).

Definition bounded_terms_field : FieldSchema := with_min 1%float terms_field.

(** [{title: {group: 'Meta'}, id: {}}] *)
Definition titled_schema : FormSchema :=
  [ ("title", with_group "Meta" text_field);
    ("id", text_field) ].

(** [{title: {group: 'Meta'}, status: {group: 'Meta'}, id: {}}] *)
Definition article_schema : FormSchema :=
  [ ("title", with_group "Meta" text_field);
    ("status", with_group "Meta" text_field);
    ("id", text_field) ].

Definition with_data (record : JsObject JsValue) (el : FirebaseAutoform)
  : FirebaseAutoform :=
  {| path := path el; schema := schema el; resetOnSubmit := resetOnSubmit el;
     showSuccess := showSuccess el; data := Some record; dataKey := dataKey el;
     _database := _database el; _loading := _loading el;
     _errors := _errors el; _values := _values el;
     _showSuccessMessage := _showSuccessMessage el;
     _globalError := _globalError el |}.

(** Schema [{name: {type: 'text'}}] with the record
    [{name: 'Ada', constructor: 'Ferrari'}] to edit. *)
Definition driver_form : FirebaseAutoform :=
  with_data [("name", JStr "Ada"); ("constructor", JStr "Ferrari")]
    (element_with [("name", text_field)]).

End Examples.

(** ** Whole-form validation, step by step *)

(** What validating one field does to the error store: the old entry of
    the field goes, and the new message, if any, is added last (lemma
    [validate_each_normal] relates it to [validate_each]). *)
Definition record_message (errors : JsObject string)
  (entry : string * option string) : JsObject string :=
  match entry with
  | (fieldName, Some text) => obj_set fieldName text (obj_delete fieldName errors)
  | (fieldName, None) => obj_delete fieldName errors
  end.

Definition delete_all (keys : list string) (errors : JsObject string)
  : JsObject string :=
  fold_left (fun errors key => obj_delete key errors) keys errors.

(** The messages of a validation pass, in field order. *)
Fixpoint reported (found : list (string * option string)) : JsObject string :=
  match found with
  | [] => []
  | (fieldName, Some text) :: rest => (fieldName, text) :: reported rest
  | (_, None) :: rest => reported rest
  end.

(** An object has one property per key. *)
Definition well_formed {A : Type} (o : JsObject A) : Prop :=
  NoDup (Object_keys o).

(** ** Buckets of the group partition *)

(** The bucket names in the order the map first holds them: the unnamed
    bucket, then each group at its first field (lemma [groupFields_buckets]
    relates names and buckets to [_groupFields]). *)
Definition bucket_names (fields : list Entry) : list string :=
  fold_left
    (fun names '(_, field) =>
       if existsb (fun name => String.eqb name (group_of field)) names
       then names
       else names ++ [group_of field])
    fields [""].

Definition in_bucket (name : string) (entry : Entry) : bool :=
  String.eqb (group_of (snd entry)) name.

(** The fields of one bucket, in declaration order. *)
Definition bucket (name : string) (fields : list Entry) : list Entry :=
  filter (in_bucket name) fields.

(** [fields] is declared bucket by bucket: one run of fields per name, in
    the order of [names] (a run may be empty). *)
Inductive declared_in_runs : list string -> list Entry -> Prop :=
| runs_done : declared_in_runs [] []
| runs_next (name : string) (names : list string) (run rest : list Entry) :
    Forall (fun entry => group_of (snd entry) = name) run ->
    declared_in_runs names rest ->
    declared_in_runs (name :: names) (run ++ rest).

(** ** Reading the outcome of a submission *)



(** A backend for closed examples: the clock reads 1000 then 1001, the SDK
    loads, [push] generates the key [-N1], and the write settles or is
    refused. *)
Definition backend_with (answer : Completion unit) : Backend :=
  {| Date_now := fun n => if Nat.eqb n 0 then 1000%float else 1001%float;
     import_database := Normal tt;
     push_key := "-N1";
     write := answer |}.

(** Whether the [forEach] of the submission copies a property of the store:
    [value !== '' || field.required]. *)
Definition keeps (el : FirebaseAutoform) (entry : string * JsValue) : bool :=
  negb (is_empty_string (snd entry))
  || match schema_get (schema el) (fst entry) with
     | Some field => required field
     | None => false
     end.



(** ** The language of a regular expression *)

(** The strings a regular expression denotes; [matches] decides it (lemma
    [matches_lang]). *)
Inductive lang : RegExp -> string -> Prop :=
| lang_eps : lang ReEps ""
| lang_class (p : ascii -> bool) (c : ascii) :
    p c = true -> lang (ReClass p) (String c "")
| lang_cat (r1 r2 : RegExp) (s1 s2 : string) :
    lang r1 s1 -> lang r2 s2 -> lang (ReCat r1 r2) (s1 ++ s2)%string
| lang_alt_l (r1 r2 : RegExp) (s : string) :
    lang r1 s -> lang (ReAlt r1 r2) s
| lang_alt_r (r1 r2 : RegExp) (s : string) :
    lang r2 s -> lang (ReAlt r1 r2) s
| lang_star_nil (r : RegExp) : lang (ReStar r) ""
| lang_star_app (r : RegExp) (s1 s2 : string) :
    lang r s1 -> lang (ReStar r) s2 -> lang (ReStar r) (s1 ++ s2)%string.

Fixpoint all_chars (p : ascii -> bool) (s : string) : bool :=
  match s with
  | EmptyString => true
  | String c s' => p c && all_chars p s'
  end.

(** ** Variants of a field schema *)

(** The field with one group of constraints taken away. *)
Definition without_lengths (field : FieldSchema) : FieldSchema :=
  {| type := type field; required := required field; default := default field;
     min := min field; max := max field; minLength := None; maxLength := None;
     pattern := pattern field; group := group field |}.

Definition without_bounds (field : FieldSchema) : FieldSchema :=
  {| type := type field; required := required field; default := default field;
     min := None; max := None; minLength := minLength field;
     maxLength := maxLength field; pattern := pattern field;
     group := group field |}.

Definition optional (field : FieldSchema) : FieldSchema :=
  {| type := type field; required := false; default := default field;
     min := min field; max := max field; minLength := minLength field;
     maxLength := maxLength field; pattern := pattern field;
     group := group field |}.

(** ** The life of an element *)

(** [updated(changedProperties)] *)
Definition updated (changedProperties : list string) (el : FirebaseAutoform)
  : FirebaseAutoform :=
  if existsb (String.eqb "schema") changedProperties
     || existsb (String.eqb "data") changedProperties
  then _initializeValues el
  else el.

(** An assignment to the public properties leaves the internal state as it
    is; the framework then reports the changed properties, and a property
    it does not report holds the value it held. *)
Definition assigned (el el' : FirebaseAutoform) (changed : list string)
  : Prop :=
  _database el' = _database el
  /\ _loading el' = _loading el
  /\ _errors el' = _errors el
  /\ _values el' = _values el
  /\ _showSuccessMessage el' = _showSuccessMessage el
  /\ _globalError el' = _globalError el
  /\ (~ In "schema" changed -> schema el' = schema el)
  /\ (~ In "data" changed -> data el' = data el).

Definition set_database (el : FirebaseAutoform) (db : option Database)
  : FirebaseAutoform :=
  {| path := path el; schema := schema el; resetOnSubmit := resetOnSubmit el;
     showSuccess := showSuccess el; data := data el; dataKey := dataKey el;
     _database := db; _loading := _loading el;
     _errors := _errors el; _values := _values el;
     _showSuccessMessage := _showSuccessMessage el;
     _globalError := _globalError el |}.

(** What can happen to a connected element: the page assigns properties, a
    database handle arrives ([_initDatabase] and its [firebase-ready]
    listener), the user edits a rendered field, submits or resets, and the
    timer of the success banner fires. *)
Inductive Step {engine : JsEngine} : FirebaseAutoform -> FirebaseAutoform -> Prop :=
| step_assign el el' changed :
    assigned el el' changed -> Step el (updated changed el')
| step_database el db : Step el (set_database el db)
| step_input el target fieldName :
    has_own fieldName (schema el) = true ->
    Step el (fst (_handleInput el target fieldName))
| step_submit el backend : Step el (element (_handleSubmit backend el))
| step_reset el : Step el (fst (_handleReset el))
| step_timer el :
    Step el (set_status el (_loading el) false (_globalError el)).

(** The states of an element from [connectedCallback] on. *)
Inductive Reachable {engine : JsEngine} : FirebaseAutoform -> Prop :=
| reach_connected el : Reachable (_initializeValues el)
| reach_step el el' : Reachable el -> Step el el' -> Reachable el'.

(** The stores hold one entry per key; every value sits under a name that
    [in] finds in the schema, every message under a field of the schema. *)
Definition stores_fit (el : FirebaseAutoform) : Prop :=
  well_formed (_values el)
  /\ (forall key, In key (Object_keys (_values el)) ->
                  js_in key (schema el) = true)
  /\ well_formed (_errors el)
  /\ (forall key, In key (Object_keys (_errors el)) ->
                  has_own key (schema el) = true).

(** Every field of the schema is read from the store itself: the store has
    the field as an own property, or [Object.prototype] has no member of
    that name to stand in for it.  [value_of] is then what
    [this._values[fieldName]] reads for each field. *)
Definition store_covers (el : FirebaseAutoform) : Prop :=
  forall key, In key (Object_keys (schema el)) ->
              has_own key (_values el) = true \/ inherited key = false.

(** ** The layout of the form *)

(** The distinct names of a list, each where it first occurs. *)
Fixpoint first_occurrences (names : list string) : list string :=
  match names with
  | [] => []
  | name :: rest =>
      name :: filter (fun other => negb (String.eqb other name))
                (first_occurrences rest)
  end.

(** The groups of a schema in first-seen order: the group names that its
    fields carry, in declaration order, each at its first occurrence. *)
Definition group_names (fields : list Entry) : list string :=
  filter (fun name => negb (String.eqb name ""))
    (first_occurrences (map (fun entry => group_of (snd entry)) fields)).

(** What [render] makes of each bucket of [_groupFields]: a fieldset with a
    legend for a named bucket that has fields, else the fields directly.
    Each field stands for its [_renderField] template. *)
Inductive Block : Type :=
| Fieldset (legend : string) (fields : list Entry)
| Fields (fields : list Entry).

Definition layout (el : FirebaseAutoform) : list Block :=
  map (fun '(groupName, fields) =>
         if negb (String.eqb groupName "") && (0 <? List.length fields)%nat
         then Fieldset groupName fields
         else Fields fields)
    (_groupFields el).

(** * Properties *)

Unset Implicit Arguments.

(** ** Objects *)

Section ObjectFacts.
Variable A : Type.
Implicit Types (o : JsObject A) (key : string) (v : A).

Lemma own_get_set_same key v o : own_get key (obj_set key v o) = Some v.
Proof.
  induction o as [|[k w] o IH]; simpl.
  - now rewrite String.eqb_refl.
  - destruct (String.eqb k key) eqn:E; simpl; rewrite E; auto.
Qed.

Lemma own_get_set_other key key' v o :
  key <> key' -> own_get key' (obj_set key v o) = own_get key' o.
Proof.
  intros Hne. induction o as [|[k w] o IH]; simpl.
  - destruct (String.eqb key key') eqn:E; auto.
    apply String.eqb_eq in E. contradiction.
  - destruct (String.eqb k key) eqn:E; simpl.
    + apply String.eqb_eq in E. subst k.
      destruct (String.eqb key key') eqn:E'; auto.
      apply String.eqb_eq in E'. contradiction.
    + destruct (String.eqb k key'); auto.
Qed.

Lemma own_get_delete_same key o : own_get key (obj_delete key o) = None.
Proof.
  induction o as [|[k w] o IH]; simpl; auto.
  destruct (String.eqb k key) eqn:E; simpl; auto. now rewrite E.
Qed.

Lemma own_get_delete_other key key' o :
  key <> key' -> own_get key' (obj_delete key o) = own_get key' o.
Proof.
  intros Hne. induction o as [|[k w] o IH]; simpl; auto.
  destruct (String.eqb k key) eqn:E; simpl.
  - apply String.eqb_eq in E. subst k.
    destruct (String.eqb key key') eqn:E'; auto.
    apply String.eqb_eq in E'. contradiction.
  - destruct (String.eqb k key'); auto.
Qed.

Lemma own_get_None key o :
  own_get key o = None <-> ~ In key (Object_keys o).
Proof.
  induction o as [|[k w] o IH]; simpl.
  - tauto.
  - destruct (String.eqb k key) eqn:E.
    + apply String.eqb_eq in E. split; [discriminate | tauto].
    + apply String.eqb_neq in E. tauto.
Qed.

Lemma own_get_In key v o : own_get key o = Some v -> In (key, v) o.
Proof.
  induction o as [|[k w] o IH]; simpl; [discriminate|].
  destruct (String.eqb k key) eqn:E; auto.
  apply String.eqb_eq in E. intros [= ->]. subst. auto.
Qed.

Lemma In_own_get key v o :
  NoDup (Object_keys o) -> In (key, v) o -> own_get key o = Some v.
Proof.
  induction o as [|[k w] o IH]; simpl; [tauto|].
  intros Hnd [Heq | Hin]; inversion Hnd as [|? ? Hk Hnd']; subst.
  - injection Heq as -> ->. now rewrite String.eqb_refl.
  - destruct (String.eqb k key) eqn:E; auto.
    apply String.eqb_eq in E. subst k. exfalso. apply Hk.
    unfold Object_keys. change key with (fst (key, v)). now apply in_map.
Qed.

Lemma obj_delete_absent key o :
  ~ In key (Object_keys o) -> obj_delete key o = o.
Proof.
  induction o as [|[k w] o IH]; simpl; auto.
  intros Hn. destruct (String.eqb k key) eqn:E.
  - apply String.eqb_eq in E. tauto.
  - f_equal. tauto.
Qed.

Lemma obj_set_absent key v o :
  ~ In key (Object_keys o) -> obj_set key v o = o ++ [(key, v)].
Proof.
  induction o as [|[k w] o IH]; simpl; auto.
  intros Hn. destruct (String.eqb k key) eqn:E.
  - apply String.eqb_eq in E. tauto.
  - f_equal. tauto.
Qed.

Lemma obj_delete_app key o1 o2 :
  obj_delete key (o1 ++ o2) = obj_delete key o1 ++ obj_delete key o2.
Proof.
  induction o1 as [|[k w] o1 IH]; simpl; auto.
  destruct (String.eqb k key); simpl; now rewrite IH.
Qed.

Lemma keys_delete key key' o :
  In key' (Object_keys (obj_delete key o)) <->
  key' <> key /\ In key' (Object_keys o).
Proof.
  induction o as [|[k w] o IH]; simpl; [tauto|].
  destruct (String.eqb k key) eqn:E; simpl.
  - apply String.eqb_eq in E. subst k. rewrite IH.
    intuition congruence.
  - apply String.eqb_neq in E. rewrite IH. intuition congruence.
Qed.

Lemma keys_set key v o :
  forall key', In key' (Object_keys (obj_set key v o)) <->
               key' = key \/ In key' (Object_keys o).
Proof.
  induction o as [|[k w] o IH]; simpl; intros key'.
  - intuition.
  - destruct (String.eqb k key) eqn:E; simpl.
    + apply String.eqb_eq in E. subst k. intuition.
    + rewrite IH. intuition.
Qed.

Lemma has_own_In key o : has_own key o = true <-> In key (Object_keys o).
Proof.
  unfold has_own. destruct (own_get key o) eqn:E.
  - split; auto. intros _.
    destruct (in_dec string_dec key (Object_keys o)) as [|Hn]; auto.
    apply own_get_None in Hn. congruence.
  - split; [discriminate|]. intros Hin. apply own_get_None in E. tauto.
Qed.

Lemma count_keys_delete key o :
  count_occ string_dec (Object_keys (obj_delete key o)) key = 0.
Proof.
  apply count_occ_not_In. rewrite keys_delete. tauto.
Qed.

Lemma count_keys_set key v o :
  count_occ string_dec (Object_keys o) key = 0 ->
  count_occ string_dec (Object_keys (obj_set key v o)) key = 1.
Proof.
  intros H. apply count_occ_not_In in H.
  rewrite obj_set_absent by assumption. unfold Object_keys.
  rewrite map_app, count_occ_app. simpl.
  destruct (string_dec key key); [|congruence].
  apply (count_occ_not_In string_dec) in H. unfold Object_keys in H. lia.
Qed.

End ObjectFacts.

(** ** What [first_violated] means *)

Section RuleFacts.
Context {engine : JsEngine}.

Lemma violation_refines_rules field v :
  violation field v = validateField_spec field v.
Proof.
  unfold violation, validateField_spec, rules, first_violated.
  cbn [guard violated message rule_required rule_email rule_minLength
         rule_maxLength rule_min rule_max rule_pattern bind].
  unfold unset, is_set, is_defined, non_empty, _isValidEmail, and_then.
  rewrite (andb_comm (required field)).
  destruct (_ && required field); cbn [bind]; [reflexivity|].
  destruct (type_is field "email" && truthy v); cbn [andb bind];
    [destruct (matches email_regexp (ToString v)); cbn [negb];
     [|reflexivity]|].
  all: destruct (truthy (read_number (minLength field)));
    destruct (truthy (read_number (maxLength field)));
    destruct (get_length v) as [len|m]; cbn [bind]; try reflexivity;
    try (destruct (js_less len (read_number (minLength field))); cbn [bind]);
    try reflexivity;
    try (destruct (js_greater len (read_number (maxLength field)));
         cbn [bind]);
    try reflexivity.
  all: destruct (is_undefined (read_number (min field))); cbn [negb andb];
    try (destruct (js_less v (read_number (min field))));
    try reflexivity.
  all: destruct (is_undefined (read_number (max field))); cbn [negb andb];
    try (destruct (js_greater v (read_number (max field))));
    try reflexivity.
  all: destruct (truthy (read_string (pattern field)) && truthy v);
    cbn [bind]; try reflexivity.
  all: destruct (RegExp_test _ _) as [[|]|]; reflexivity.
Qed.

Lemma first_violated_Some rs field v text :
  first_violated rs field v = Normal (Some text) ->
  exists before r after,
    rs = before ++ r :: after
    /\ Forall (passes field v) before
    /\ guard r field v = true
    /\ violated r field v = Normal true
    /\ text = message r field.
Proof.
  induction rs as [|r rs IH]; simpl; [discriminate|].
  destruct (guard r field v) eqn:G.
  - destruct (violated r field v) as [[|]|] eqn:V; cbn [bind];
      [|intros H|discriminate].
    + intros [= <-]. exists [], r, rs. repeat split; auto.
    + destruct (IH H) as (before & r' & after & -> & Hb & Hg & Hv & Ht).
      exists (r :: before), r', after. repeat split; auto.
      constructor; auto. now right.
  - intros H.
    destruct (IH H) as (before & r' & after & -> & Hb & Hg & Hv & Ht).
    exists (r :: before), r', after. repeat split; auto.
    constructor; auto. now left.
Qed.

Lemma first_violated_None rs field v :
  first_violated rs field v = Normal None <-> Forall (passes field v) rs.
Proof.
  induction rs as [|r rs IH]; simpl.
  - split; auto.
  - destruct (guard r field v) eqn:G.
    + destruct (violated r field v) as [[|]|] eqn:V; cbn [bind].
      * split; [discriminate|]. intros H. inversion H as [|? ? [?|?] ?]; congruence.
      * rewrite IH. split; intros H.
        -- constructor; auto. now right.
        -- now inversion H.
      * split; [discriminate|]. intros H. inversion H as [|? ? [?|?] ?]; congruence.
    + rewrite IH. split; intros H.
      * constructor; auto. now left.
      * now inversion H.
Qed.

Lemma _validateField_own el fieldName field v :
  own_get fieldName (schema el) = Some field ->
  _validateField el fieldName v =
  (found <- violation field v ;;
   Normal (set_errors el
             match found with
             | Some text =>
                 obj_set fieldName text (obj_delete fieldName (_errors el))
             | None => obj_delete fieldName (_errors el)
             end)).
Proof.
  intros H. unfold _validateField, schema_get. now rewrite H.
Qed.

(** The entry that [_validateField] leaves for the field it validates. *)
Lemma _validateField_entry el fieldName field v found :
  own_get fieldName (schema el) = Some field ->
  violation field v = Normal found ->
  exists el',
    _validateField el fieldName v = Normal el'
    /\ own_get fieldName (_errors el') = found
    /\ count_occ string_dec (Object_keys (_errors el')) fieldName
       = match found with Some _ => 1 | None => 0 end
    /\ (forall key, key <> fieldName ->
                    own_get key (_errors el') = own_get key (_errors el)).
Proof.
  intros Hf Hv. rewrite (_validateField_own _ _ _ _ Hf), Hv. cbn [bind].
  eexists. split; [reflexivity|]. destruct found as [text|]; cbn.
  - split; [apply own_get_set_same|]. split.
    + apply count_keys_set, count_keys_delete.
    + intros key Hk. rewrite own_get_set_other by congruence.
      apply own_get_delete_other. congruence.
  - split; [apply own_get_delete_same|]. split.
    + apply count_keys_delete.
    + intros key Hk. apply own_get_delete_other. congruence.
Qed.

End RuleFacts.

(** ** Validation order (C1) *)

(** C1.  For every field of the schema and every candidate value,
    [_validateField] evaluates the seven rules (required, email format,
    minimum length, maximum length, minimum value, maximum value, pattern)
    in that order and stops at the first violated one: its outcome is the
    outcome of [first_violated rules]; the message it stores is that of a
    rule that applies under its guard and is violated while every rule
    before it passes; and the field ends with at most one message. *)
Theorem validateField_first_violated_rule_wins :
  forall {engine : JsEngine} (el : FirebaseAutoform) (fieldName : string)
         (field : FieldSchema) (v : JsValue),
    own_get fieldName (schema el) = Some field ->
    match first_violated rules field v with
    | Normal found =>
        exists el',
          _validateField el fieldName v = Normal el'
          /\ own_get fieldName (_errors el') = found
          /\ count_occ string_dec (Object_keys (_errors el')) fieldName <= 1
    | Throw m => _validateField el fieldName v = Throw m
    end
    /\ (forall text,
          first_violated rules field v = Normal (Some text) ->
          exists before r after,
            rules = before ++ r :: after
            /\ Forall (passes field v) before
            /\ guard r field v = true
            /\ violated r field v = Normal true
            /\ text = message r field)
    /\ (first_violated rules field v = Normal None <->
        Forall (passes field v) rules).
Proof.
  intros engine el fieldName field v Hf. split; [|split].
  - pose proof (violation_refines_rules field v) as R.
    unfold validateField_spec in R.
    destruct (first_violated rules field v) as [found|m].
    + destruct (_validateField_entry el _ _ v _ Hf R) as (el' & H1 & H2 & H3 & _).
      exists el'. repeat split; auto. rewrite H3. destruct found; lia.
    + rewrite (_validateField_own _ _ _ _ Hf), R. reflexivity.
  - apply first_violated_Some.
  - apply first_violated_None.
Qed.

Lemma validateField_first_violated_rule_wins_witness :
  own_get "email" (schema Examples.contact_form)
  = Some (Examples.with_required (Examples.with_type "email" Examples.text_field))
  /\ exists el',
      _validateField (engine := ReferenceEngine.engine)
        Examples.contact_form "email" (JStr "not-an-email")
      = Normal el'
      /\ own_get "email" (_errors el') = Some "Please enter a valid email".
Proof.
  split; [reflexivity|].
  destruct (@validateField_first_violated_rule_wins ReferenceEngine.engine
              Examples.contact_form "email" _ (JStr "not-an-email") eq_refl)
    as [H _].
  vm_compute first_violated in H.
  destruct H as (el' & H1 & H2 & _). exists el'. split; assumption.
Defined.

(** ** Whole-form validation *)

Section FormFacts.
Context {engine : JsEngine}.

Lemma keys_delete_all keys errors key :
  In key (Object_keys (delete_all keys errors)) <->
  ~ In key keys /\ In key (Object_keys errors).
Proof.
  unfold delete_all. revert errors.
  induction keys as [|k keys IH]; intros errors; simpl.
  - tauto.
  - rewrite IH, keys_delete. intuition congruence.
Qed.

Lemma delete_all_covered keys errors :
  (forall key, In key (Object_keys errors) -> In key keys) ->
  delete_all keys errors = [].
Proof.
  intros H. destruct (delete_all keys errors) as [|[k t] rest] eqn:E; auto.
  assert (In k (Object_keys (delete_all keys errors))) as Hin
      by (rewrite E; simpl; auto).
  apply keys_delete_all in Hin. destruct Hin as [Hn Hk]. now apply H in Hk.
Qed.

Lemma record_message_app errors added fieldName found :
  ~ In fieldName (Object_keys added) ->
  record_message (errors ++ added) (fieldName, found)
  = obj_delete fieldName errors ++ added ++ reported [(fieldName, found)].
Proof.
  intros Hn. unfold record_message.
  rewrite obj_delete_app, (obj_delete_absent _ fieldName added Hn).
  destruct found as [text|]; simpl.
  - rewrite obj_set_absent, app_assoc; auto.
    unfold Object_keys. rewrite map_app, in_app_iff.
    intros [H|H]; [|tauto].
    apply (keys_delete _ fieldName fieldName errors) in H. tauto.
  - now rewrite app_nil_r.
Qed.

Lemma keys_reported found key :
  In key (Object_keys (reported found)) -> In key (map fst found).
Proof.
  induction found as [|[k [t|]] found IH]; simpl; tauto.
Qed.

Lemma reported_app found1 found2 :
  reported (found1 ++ found2) = reported found1 ++ reported found2.
Proof.
  induction found1 as [|[k [t|]] found1 IH]; simpl; congruence.
Qed.

(** After a pass over fields with distinct names, the store holds what was
    there for other names, then the messages of the pass in field order. *)
Lemma fold_record_message found : forall errors added,
  NoDup (map fst found) ->
  (forall key, In key (Object_keys added) -> ~ In key (map fst found)) ->
  fold_left record_message found (errors ++ added)
  = delete_all (map fst found) errors ++ added ++ reported found.
Proof.
  induction found as [|[k m] found IH]; intros errors added Hnd Hdis; simpl.
  - now rewrite app_nil_r.
  - inversion Hnd as [|? ? Hk Hnd']; subst.
    change (fold_left record_message found
              (record_message (errors ++ added) (k, m))
            = delete_all (map fst found) (obj_delete k errors)
                ++ added ++ reported ((k, m) :: found)).
    rewrite record_message_app.
    + rewrite app_assoc, <- (app_assoc _ added), IH; auto.
      * change ((k, m) :: found) with ([(k, m)] ++ found).
        now rewrite reported_app, !app_assoc.
      * intros key. unfold Object_keys. rewrite map_app, in_app_iff.
        intros [H|H] Hin.
        -- apply (Hdis key H). simpl. auto.
        -- apply keys_reported in H. simpl in H. destruct H as [->|[]].
           contradiction.
    + intros H. apply (Hdis k H). simpl. auto.
Qed.

(** One pass of [validate_each] when no rule throws. *)
Lemma validate_each_normal fields : forall el found,
  Forall2 (fun '(fieldName, _) '(fieldName', message) =>
             fieldName' = fieldName
             /\ exists field,
                 own_get fieldName (schema el) = Some field
                 /\ violation field (value_of el fieldName) = Normal message)
    fields found ->
  validate_each fields el
  = (set_errors el (fold_left record_message found (_errors el)), Normal tt).
Proof.
  induction fields as [|[k f] fields IH]; intros el found H;
    inversion H as [|? [k' m] ? found' Hhead Hrest]; subst.
  - simpl. now destruct el.
  - destruct Hhead as (-> & field & Hf & Hv).
    cbn [validate_each]. rewrite (_validateField_own _ _ _ _ Hf), Hv.
    cbn [bind fold_left].
    rewrite (IH _ found').
    + destruct m; reflexivity.
    + revert Hrest. apply Forall2_impl. intros [k1 f1] [k2 m2] H1. exact H1.
Qed.

End FormFacts.

Section FormResult.
Context {engine : JsEngine}.

(** [_validateForm] on a form none of whose rules throws: the error store
    is replaced by the messages of this pass, provided every prior entry
    belongs to a field of the schema. *)
Lemma validateForm_result el (found : string -> option string) :
  well_formed (schema el) ->
  (forall key, In key (Object_keys (_errors el)) ->
               In key (Object_keys (schema el))) ->
  (forall fieldName field,
      In (fieldName, field) (schema el) ->
      violation field (value_of el fieldName) = Normal (found fieldName)) ->
  let errors :=
    reported (map (fun '(fieldName, _) => (fieldName, found fieldName))
                (schema el)) in
  _validateForm el
  = (set_errors el errors,
     Normal match errors with [] => true | _ :: _ => false end).
Proof.
  intros Hwf Hsub Hall errors. unfold _validateForm, Object_entries.
  rewrite (validate_each_normal (schema el) el
             (map (fun '(k, _) => (k, found k)) (schema el))).
  - pose proof (fold_record_message
                  (map (fun '(k, _) => (k, found k)) (schema el))
                  (_errors el) []) as F.
    rewrite app_nil_r in F. rewrite F; clear F.
    + rewrite map_map.
      rewrite (map_ext _ fst) by (now intros [k f]).
      rewrite delete_all_covered by exact Hsub.
      fold errors. simpl. unfold isValid. simpl.
      destruct errors; reflexivity.
    + rewrite map_map. rewrite (map_ext _ fst) by (now intros [k f]).
      exact Hwf.
    + simpl. tauto.
  - assert (forall fields,
               (forall k f, In (k, f) fields -> In (k, f) (schema el)) ->
               Forall2
                 (fun '(fieldName, _) '(fieldName', message) =>
                    fieldName' = fieldName
                    /\ exists field,
                        own_get fieldName (schema el) = Some field
                        /\ violation field (value_of el fieldName)
                           = Normal message)
                 fields (map (fun '(k, _) => (k, found k)) fields)) as G.
    { induction fields as [|[k f] fields IH]; intros Hin; simpl; constructor.
      - split; auto. exists f. split.
        + apply In_own_get; auto. apply Hin. simpl. auto.
        + apply Hall, Hin. simpl. auto.
      - apply IH. intros k' f' H'. apply Hin. simpl. auto. }
    apply G. auto.
Qed.

Lemma reported_none (fields : FormSchema) (found : string -> option string) :
  (forall fieldName field, In (fieldName, field) fields ->
                           found fieldName = None) ->
  reported (map (fun '(fieldName, _) => (fieldName, found fieldName)) fields)
  = [].
Proof.
  induction fields as [|[k f] fields IH]; intros H; simpl; auto.
  rewrite (H k f) by (simpl; auto). apply IH.
  intros k' f' H'. apply (H k' f'). simpl. auto.
Qed.

(** A form whose fields all pass is valid, with an empty error store. *)
Lemma validateForm_all_pass el :
  well_formed (schema el) ->
  (forall key, In key (Object_keys (_errors el)) ->
               In key (Object_keys (schema el))) ->
  (forall fieldName field,
      In (fieldName, field) (schema el) ->
      violation field (value_of el fieldName) = Normal None) ->
  _validateForm el = (set_errors el [], Normal true).
Proof.
  intros Hwf Hsub Hall.
  rewrite (validateForm_result el (fun _ => None) Hwf Hsub Hall).
  now rewrite reported_none.
Qed.

(** A form with exactly one failing field reports exactly that field. *)
Lemma reported_single (fields : FormSchema) (failing text : string) :
  NoDup (Object_keys fields) ->
  In failing (Object_keys fields) ->
  reported
    (map (fun '(fieldName, _) =>
            (fieldName,
             if String.eqb fieldName failing then Some text else None))
       fields)
  = [(failing, text)].
Proof.
  induction fields as [|[k f] fields IH]; simpl; intros Hnd Hin; [tauto|].
  inversion Hnd as [|? ? Hk Hnd']; subst.
  destruct (String.eqb k failing) eqn:E.
  - apply String.eqb_eq in E. subst k. f_equal.
    apply (reported_none fields
             (fun k => if String.eqb k failing then Some text else None)).
    intros k' f' H'. destruct (String.eqb k' failing) eqn:E'; auto.
    apply String.eqb_eq in E'. subst k'. exfalso. apply Hk.
    unfold Object_keys. change failing with (fst (failing, f')).
    now apply in_map.
  - apply String.eqb_neq in E. apply IH; auto. tauto.
Qed.

Lemma unset_iff v :
  unset v = true <-> v = JStr "" \/ v = JNull \/ v = JUndefined.
Proof.
  unfold unset. destruct v as [| |b|n|[|c s]]; simpl;
    intuition (auto; discriminate).
Qed.

Lemma violation_required field v :
  required field = true -> unset v = true ->
  violation field v = Normal (Some "This field is required").
Proof.
  intros Hr Hu. unfold violation. fold (unset v). now rewrite Hr, Hu.
Qed.

End FormResult.

(** ** Comparisons with [NaN] *)

Lemma ltb_nan_l (x : number) : PrimFloat.ltb PrimFloat.nan x = false.
Proof.
  rewrite ltb_spec. unfold SFltb, SFcompare.
  now destruct (Prim2SF x).
Qed.

Lemma ltb_nan_r (x : number) : PrimFloat.ltb x PrimFloat.nan = false.
Proof.
  rewrite ltb_spec. unfold SFltb, SFcompare.
  now destruct (Prim2SF x).
Qed.

(** ** The required rule (C5) *)

(** C5.  For every field [f] of a schema with [required = true]:
    validating the empty string, [null] or [undefined] stores "This field is
    required"; validating any other value that passes the six other rules
    of [f] stores no message. *)
Theorem required_field_rejects_unset_values :
  forall {engine : JsEngine} (el : FirebaseAutoform) (fieldName : string)
         (field : FieldSchema),
    own_get fieldName (schema el) = Some field ->
    required field = true ->
    (forall v,
        v = JStr "" \/ v = JNull \/ v = JUndefined ->
        exists el',
          _validateField el fieldName v = Normal el'
          /\ own_get fieldName (_errors el') = Some "This field is required")
    /\ (forall v,
          v <> JStr "" -> v <> JNull -> v <> JUndefined ->
          Forall (passes field v)
            [rule_email; rule_minLength; rule_maxLength;
             rule_min; rule_max; rule_pattern] ->
          exists el',
            _validateField el fieldName v = Normal el'
            /\ own_get fieldName (_errors el') = None).
Proof.
  intros engine el fieldName field Hf Hr. split.
  - intros v Hv. apply unset_iff in Hv.
    destruct (_validateField_entry el fieldName field v _ Hf
                (violation_required field v Hr Hv)) as (el' & H1 & H2 & _).
    now exists el'.
  - intros v H1 H2 H3 Hothers.
    assert (violation field v = Normal None) as Hv.
    { rewrite violation_refines_rules. apply first_violated_None.
      constructor; [|exact Hothers].
      right. cbn. f_equal.
      destruct (unset v) eqn:U; auto.
      apply unset_iff in U. tauto. }
    destruct (_validateField_entry el fieldName field v _ Hf Hv)
      as (el' & E1 & E2 & _).
    now exists el'.
Qed.

Lemma required_field_rejects_unset_values_witness :
  own_get "name" (schema Examples.contact_form)
  = Some (Examples.with_required Examples.text_field)
  /\ required (Examples.with_required Examples.text_field) = true
  /\ (exists el',
         _validateField (engine := ReferenceEngine.engine)
           Examples.contact_form "name" JNull = Normal el'
         /\ own_get "name" (_errors el') = Some "This field is required")
  /\ (exists el',
         _validateField (engine := ReferenceEngine.engine)
           Examples.contact_form "name" (JStr "Ada") = Normal el'
         /\ own_get "name" (_errors el') = None).
Proof.
  destruct (@required_field_rejects_unset_values ReferenceEngine.engine
              Examples.contact_form "name" _ eq_refl eq_refl) as [H1 H2].
  split; [reflexivity|]. split; [reflexivity|]. split.
  - apply H1. auto.
  - apply H2; try discriminate.
    repeat constructor; (left; reflexivity) || (right; reflexivity).
Defined.

(** ** Blank numeric input against a minimum (C9) *)

(** C9, as stated, at [{type: 'number', min: 1, minLength: 2}]: the field
    is not required and has [min = 1 > 0], yet validating [''] reports the
    length rule, which comes first, and not "Minimum value is 1". *)
Lemma blank_numeric_input_counterexample :
  required Examples.code_field = false
  /\ min Examples.code_field = Some 1%float
  /\ PrimFloat.ltb 0 1 = true
  /\ violation (engine := ReferenceEngine.engine) Examples.code_field (JStr "")
     = Normal (Some "Minimum 2 characters required")
  /\ violation (engine := ReferenceEngine.engine) Examples.code_field (JStr "")
     <> Normal (Some ("Minimum value is "
                        ++ Number_toString (JsEngine := ReferenceEngine.engine)
                             1%float)%string).
Proof.
  repeat split; try reflexivity. vm_compute. discriminate.
Qed.

(** C9, amended.  For every field that is not required, has a minimum
    bound [min > 0], and whose length rules the empty string passes (as when
    it has none): validating the empty-string sentinel yields "Minimum value
    is N", the empty string comparing as 0; and the sentinel is what a blank
    input of a [number] or [range] field extracts to. *)
Theorem blank_numeric_input_below_min :
  forall {engine : JsEngine} (field : FieldSchema) (bound : number),
    required field = false ->
    min field = Some bound ->
    PrimFloat.ltb 0 bound = true ->
    passes field (JStr "") rule_minLength ->
    passes field (JStr "") rule_maxLength ->
    violation field (JStr "")
    = Normal (Some ("Minimum value is " ++ Number_toString bound)%string)
    /\ (forall target,
          type_is field "number" || type_is field "range" = true ->
          value target = "" ->
          extract_value field target = JStr "")
    /\ (forall el fieldName target,
          own_get fieldName (schema el) = Some field ->
          type_is field "number" || type_is field "range" = true ->
          value target = "" ->
          exists el',
            _handleInput el target fieldName = (el', Normal tt)
            /\ own_get fieldName (_values el') = Some (JStr "")
            /\ own_get fieldName (_errors el')
               = Some ("Minimum value is " ++ Number_toString bound)%string).
Proof.
  intros engine field bound Hr Hmin Hpos Hshort Hlong.
  assert (violation field (JStr "")
          = Normal (Some ("Minimum value is " ++ Number_toString bound)%string))
    as Hviolation; [|assert (forall target,
          type_is field "number" || type_is field "range" = true ->
          value target = "" ->
          extract_value field target = JStr "") as Hextract;
      [|split; [exact Hviolation|split; [exact Hextract|]]]].
  3: { intros el fieldName target Hf Ht Hv.
       unfold _handleInput, schema_get. rewrite Hf.
       rewrite (Hextract target Ht Hv).
       destruct (_validateField_entry
                   (set_values el (obj_set fieldName (JStr "") (_values el)))
                   fieldName field (JStr "") _ Hf Hviolation)
         as (el' & E1 & E2 & _ & _).
       rewrite E1. exists el'. repeat split; auto.
       rewrite (_validateField_own
                  (set_values el (obj_set fieldName (JStr "") (_values el)))
                  fieldName field (JStr "") Hf), Hviolation in E1.
       injection E1 as <-. apply own_get_set_same. }
  - rewrite violation_refines_rules.
    unfold validateField_spec, rules, first_violated.
    cbn [guard violated message rule_required rule_email bind].
    rewrite Hr. cbn [unset is_empty_string is_null is_undefined orb andb].
    unfold non_empty. cbn [truthy String.eqb negb].
    rewrite andb_false_r.
    assert (forall r k,
               passes field (JStr "") r ->
               (if guard r field (JStr "")
                then broken <- violated r field (JStr "") ;;
                     (if broken then Normal (Some (message r field)) else k)
                else k) = k) as Skip.
    { intros r k [G|V]; [now rewrite G|].
      rewrite V. now destruct (guard r field (JStr "")). }
    rewrite (Skip rule_minLength _ Hshort), (Skip rule_maxLength _ Hlong).
    cbn [guard violated message rule_min bind]. rewrite Hmin.
    cbn [read_number is_defined is_undefined negb ToString].
    unfold js_less. cbn [ToNumber]. unfold StringToNumber.
    cbn [is_blank]. now rewrite Hpos.
  - intros target Ht Hv. unfold extract_value.
    assert (type_is field "checkbox" = false) as Hc.
    { unfold type_is in *. destruct (type field) as [t|]; auto.
      destruct (String.eqb t "number") eqn:E1.
      - apply String.eqb_eq in E1. now subst t.
      - destruct (String.eqb t "range") eqn:E2; [|discriminate].
        apply String.eqb_eq in E2. now subst t. }
    now rewrite Hc, Ht, Hv.
Qed.

Lemma blank_numeric_input_below_min_witness :
  required Examples.quantity_field = false
  /\ min Examples.quantity_field = Some 1%float
  /\ PrimFloat.ltb 0 1 = true
  /\ violation (engine := ReferenceEngine.engine) Examples.quantity_field
       (JStr "")
     = Normal (Some "Minimum value is 1").
Proof.
  split; [reflexivity|]. split; [reflexivity|]. split; [reflexivity|].
  apply (@blank_numeric_input_below_min ReferenceEngine.engine
           Examples.quantity_field 1%float eq_refl eq_refl eq_refl);
    left; reflexivity.
Defined.

(** ** A required checkbox left unchecked (C10) *)

(** C10, as stated, at [{type: 'checkbox', required: true, min: 1}]:
    validating [false] does yield a violation, because the minimum rule
    compares [false] as 0. *)
Lemma required_checkbox_counterexample :
  type Examples.bounded_terms_field = Some "checkbox"
  /\ required Examples.bounded_terms_field = true
  /\ violation (engine := ReferenceEngine.engine) Examples.bounded_terms_field
       (JBool false)
     = Normal (Some "Minimum value is 1").
Proof.
  repeat split.
Qed.

(** C10, amended.  For every checkbox field with [required = true] whose
    numeric bounds [false] passes (as when it has none): validating [false]
    yields no violation, because the required rule fires only on the empty
    string, [null] and [undefined], and an unchecked checkbox holds [false]
    from initialization on; hence, in a form whose store covers the schema
    and whose other fields pass, the unchecked required checkbox leaves
    whole-form validation successful. *)
Theorem required_checkbox_unchecked_is_valid :
  forall {engine : JsEngine} (el : FirebaseAutoform) (fieldName : string)
         (field : FieldSchema),
    own_get fieldName (schema el) = Some field ->
    type field = Some "checkbox" ->
    required field = true ->
    passes field (JBool false) rule_min ->
    passes field (JBool false) rule_max ->
    violation field (JBool false) = Normal None
    /\ (default field = JUndefined -> initial_value field = JBool false)
    /\ (exists el',
           _validateField el fieldName (JBool false) = Normal el'
           /\ own_get fieldName (_errors el') = None)
    /\ (store_covers el ->
        well_formed (schema el) ->
        (forall key, In key (Object_keys (_errors el)) ->
                     In key (Object_keys (schema el))) ->
        value_of el fieldName = JBool false ->
        (forall other field',
            In (other, field') (schema el) -> other <> fieldName ->
            violation field' (value_of el other) = Normal None) ->
        _validateForm el = (set_errors el [], Normal true)).
Proof.
  intros engine el fieldName field Hf Ht Hr Hmin Hmax.
  assert (violation field (JBool false) = Normal None) as Hv.
  { rewrite violation_refines_rules. apply first_violated_None.
    unfold rules. repeat apply Forall_cons; auto.
    - right. reflexivity.
    - left. cbn. unfold type_is. now rewrite Ht.
    - right. cbn. unfold js_less. cbn [ToNumber]. now rewrite ltb_nan_l.
    - right. cbn. unfold js_greater. cbn [ToNumber]. now rewrite ltb_nan_r.
    - left. cbn. unfold non_empty. cbn. apply andb_false_r. }
  split; [exact Hv|]. split; [|split].
  - intros Hd. unfold initial_value, type_is. now rewrite Hd, Ht.
  - destruct (_validateField_entry el fieldName field _ _ Hf Hv)
      as (el' & E1 & E2 & _).
    now exists el'.
  - intros Hcovers Hwf Hsub Hvalue Hothers. apply validateForm_all_pass; auto.
    intros k f Hin. destruct (string_dec k fieldName) as [->|Hne].
    + rewrite Hvalue.
      rewrite (In_own_get _ _ _ _ Hwf Hin) in Hf. injection Hf as ->.
      exact Hv.
    + now apply Hothers.
Qed.

Lemma required_checkbox_unchecked_is_valid_witness :
  own_get "terms" (schema (_initializeValues
                             (Examples.element_with
                                [("terms", Examples.terms_field)])))
  = Some Examples.terms_field
  /\ type Examples.terms_field = Some "checkbox"
  /\ required Examples.terms_field = true
  /\ violation (engine := ReferenceEngine.engine) Examples.terms_field
       (JBool false) = Normal None
  /\ _validateForm (engine := ReferenceEngine.engine)
       (_initializeValues
          (Examples.element_with [("terms", Examples.terms_field)]))
     = (_initializeValues
          (Examples.element_with [("terms", Examples.terms_field)]),
        Normal true).
Proof.
  split; [reflexivity|]. split; [reflexivity|]. split; [reflexivity|].
  destruct (@required_checkbox_unchecked_is_valid ReferenceEngine.engine
              (_initializeValues
                 (Examples.element_with [("terms", Examples.terms_field)]))
              "terms" Examples.terms_field eq_refl eq_refl eq_refl)
    as (Hv & _ & _ & Hform); [left; reflexivity|left; reflexivity|].
  split; [exact Hv|]. apply Hform.
  - intros key [<-|[]]. left. reflexivity.
  - repeat constructor; simpl; tauto.
  - simpl. tauto.
  - reflexivity.
  - intros other field' [[= <- <-]|[]] Hne. congruence.
Defined.

(** ** Initialization of the value store (C6) *)

Lemma set_defaults_get (fields : FormSchema) : forall acc key,
  well_formed fields ->
  own_get key
    (fold_left (fun values '(k, field) => obj_set k (initial_value field) values)
       fields acc)
  = match own_get key fields with
    | Some field => Some (initial_value field)
    | None => own_get key acc
    end.
Proof.
  induction fields as [|[k f] fields IH]; intros acc key Hwf; simpl; auto.
  inversion Hwf as [|? ? Hk Hnd]; subst.
  rewrite IH by exact Hnd.
  destruct (String.eqb k key) eqn:E.
  - apply String.eqb_eq in E. subst k.
    apply own_get_None in Hk. rewrite Hk. apply own_get_set_same.
  - apply String.eqb_neq in E.
    destruct (own_get key fields); auto. now apply own_get_set_other.
Qed.

Lemma override_with_get (fields : FormSchema) (record : JsObject JsValue) :
  forall values key,
    well_formed record ->
    own_get key (override_with fields record values)
    = match own_get key record with
      | Some v => if js_in key fields then Some v else own_get key values
      | None => own_get key values
      end.
Proof.
  unfold override_with, Object_entries.
  induction record as [|[k v] record IH]; intros values key Hwf; simpl; auto.
  inversion Hwf as [|? ? Hk Hnd]; subst.
  rewrite IH by exact Hnd.
  destruct (String.eqb k key) eqn:E.
  - apply String.eqb_eq in E. subst k.
    apply own_get_None in Hk. rewrite Hk.
    destruct (js_in key fields); auto. apply own_get_set_same.
  - apply String.eqb_neq in E.
    destruct (own_get key record) as [w|]; [destruct (js_in key fields)|];
      auto; destruct (js_in k fields); auto; now apply own_get_set_other.
Qed.

(** What initialization stores under each name: for a field of the schema,
    the value of the record when it has one, else the declared default,
    else [false] for a checkbox, else the empty string; under any other
    name, only what the record holds under a name that [in] finds on the
    schema's prototype chain.  All errors are cleared. *)
Lemma initializeValues_get el key :
  well_formed (schema el) ->
  match data el with Some record => well_formed record | None => True end ->
  own_get key (_values (_initializeValues el))
  = match
      match data el with Some record => own_get key record | None => None end
    with
    | Some v =>
        if js_in key (schema el) then Some v
        else None
    | None => option_map initial_value (own_get key (schema el))
    end
  /\ _errors (_initializeValues el) = [].
Proof.
  intros Hs Hd. split; [|reflexivity].
  unfold _initializeValues. cbn [_values set_errors set_values].
  unfold set_defaults, Object_entries.
  destruct (data el) as [record|].
  - rewrite override_with_get, set_defaults_get by assumption.
    destruct (own_get key record) as [v|].
    + unfold js_in, has_own.
      destruct (own_get key (schema el)) as [f|], (inherited key);
        reflexivity.
    + now destruct (own_get key (schema el)).
  - rewrite set_defaults_get by assumption.
    now destruct (own_get key (schema el)).
Qed.

(** C6.  Initialization with schema [{name: {type: 'text'}}] and record
    [{name: 'Ada', constructor: 'Ferrari'}]: the record's key [constructor]
    is not a field of the schema, yet [key in this.schema] finds it on
    [Object.prototype] and the store gains it. *)
Theorem initializeValues_gains_inherited_key :
  has_own "constructor" (schema Examples.driver_form) = false
  /\ _values (_initializeValues Examples.driver_form)
     = [("name", JStr "Ada"); ("constructor", JStr "Ferrari")]
  /\ _errors (_initializeValues Examples.driver_form) = [].
Proof.
  repeat split.
Qed.

(** ** Reset (C8) *)

(** C8.  Resetting twice leaves the element, and so its ValueStore and
    ErrorStore, as resetting once does; and the stores after a reset do not
    depend on the values and errors before it, only on the schema and the
    record to edit. *)
Theorem reset_is_idempotent :
  forall (el : FirebaseAutoform),
    fst (_handleReset (fst (_handleReset el))) = fst (_handleReset el)
    /\ _values (fst (_handleReset (fst (_handleReset el))))
       = _values (fst (_handleReset el))
    /\ _errors (fst (_handleReset (fst (_handleReset el))))
       = _errors (fst (_handleReset el))
    /\ forall (edited : JsObject JsValue) (stale : JsObject string),
        _values (fst (_handleReset (set_errors (set_values el edited) stale)))
        = _values (fst (_handleReset el))
        /\ _errors (fst (_handleReset
                           (set_errors (set_values el edited) stale)))
           = _errors (fst (_handleReset el)).
Proof.
  intros el. destruct el. repeat split.
Qed.

(** ** Group partition (C3) *)

Section Buckets.
Implicit Types (fields run rest : list Entry) (names : list string).

Lemma bucket_app name fields1 fields2 :
  bucket name (fields1 ++ fields2) = bucket name fields1 ++ bucket name fields2.
Proof. apply filter_app. Qed.

Lemma bucket_empty name fields :
  (forall entry, In entry fields -> group_of (snd entry) <> name) ->
  bucket name fields = [].
Proof.
  induction fields as [|e fields IH]; intros H; simpl; auto.
  unfold in_bucket at 1. destruct (String.eqb _ name) eqn:E.
  - apply String.eqb_eq in E. exfalso. apply (H e); simpl; auto.
  - apply IH. intros e' H'. apply H. simpl. auto.
Qed.

Lemma bucket_all name fields :
  Forall (fun entry => group_of (snd entry) = name) fields ->
  bucket name fields = fields.
Proof.
  induction 1 as [|e fields He _ IH]; simpl; auto.
  unfold in_bucket at 1. rewrite He, String.eqb_refl. now f_equal.
Qed.

Lemma Map_has_names (F : string -> list Entry) names name :
  Map_has (map (fun g => (g, F g)) names) name
  = existsb (fun g => String.eqb g name) names.
Proof.
  unfold Map_has. induction names as [|g names IH]; simpl; auto.
  now rewrite IH.
Qed.

Lemma existsb_names names name :
  existsb (fun g => String.eqb g name) names = true <-> In name names.
Proof.
  rewrite existsb_exists. split.
  - intros (g & Hin & E). apply String.eqb_eq in E. now subst.
  - intros H. exists name. split; auto. apply String.eqb_refl.
Qed.

Lemma Map_set_new (groups : GroupMap) name fields :
  ~ In name (map fst groups) ->
  Map_set groups name fields = groups ++ [(name, fields)].
Proof.
  induction groups as [|[g fs] groups IH]; simpl; intros H; auto.
  destruct (String.eqb g name) eqn:E.
  - apply String.eqb_eq in E. tauto.
  - f_equal. apply IH. tauto.
Qed.

Lemma Map_push_names (F : string -> list Entry) names name entry :
  NoDup names ->
  Map_push (map (fun g => (g, F g)) names) name entry
  = map (fun g => (g, if String.eqb g name then F g ++ [entry] else F g)) names.
Proof.
  induction names as [|g names IH]; intros Hnd; simpl; auto.
  inversion Hnd as [|? ? Hg Hnd']; subst.
  destruct (String.eqb g name) eqn:E.
  - f_equal. apply String.eqb_eq in E. subst g.
    apply map_ext_in. intros g' Hin.
    destruct (String.eqb g' name) eqn:E'; auto.
    apply String.eqb_eq in E'. subst. contradiction.
  - f_equal. now apply IH.
Qed.

Lemma Map_push_last (groups : GroupMap) name fields entry :
  ~ In name (map fst groups) ->
  Map_push (groups ++ [(name, fields)]) name entry
  = groups ++ [(name, fields ++ [entry])].
Proof.
  induction groups as [|[g fs] groups IH]; simpl; intros H.
  - now rewrite String.eqb_refl.
  - destruct (String.eqb g name) eqn:E.
    + apply String.eqb_eq in E. tauto.
    + f_equal. apply IH. tauto.
Qed.

(** The names cover the groups of the fields, without repetition. *)
Lemma bucket_names_spec fields :
  NoDup (bucket_names fields)
  /\ In "" (bucket_names fields)
  /\ (forall entry, In entry fields ->
                    In (group_of (snd entry)) (bucket_names fields)).
Proof.
  induction fields as [|[k f] fields IH] using rev_ind.
  - simpl. repeat split; [repeat constructor|auto|]; simpl; tauto.
  - destruct IH as (Hnd & He & Hall).
    unfold bucket_names in *. rewrite fold_left_app. cbn [fold_left].
    set (names := fold_left _ fields [""]) in *.
    destruct (existsb _ names) eqn:E.
    + apply existsb_names in E. repeat split; auto.
      intros e [H|[<-|[]]]%in_app_or; auto.
    + assert (~ In (group_of f) names) as Hn.
      { intros H. apply existsb_names in H. congruence. }
      repeat split.
      * apply NoDup_app; auto; [repeat constructor; simpl; tauto|].
        intros x Hx [<-|[]]. contradiction.
      * apply in_or_app. auto.
      * intros e [H|[<-|[]]]%in_app_or; apply in_or_app; simpl; auto.
Qed.

(** The map that [_groupFields] builds: one bucket per name, holding the
    fields of that bucket in declaration order. *)
Lemma groupFields_buckets el :
  _groupFields el
  = map (fun name => (name, bucket name (Object_entries (schema el))))
      (bucket_names (Object_entries (schema el))).
Proof.
  unfold _groupFields, Object_entries.
  induction (schema el) as [|[k f] fields IH] using rev_ind.
  - reflexivity.
  - destruct (bucket_names_spec fields) as (Hnd & _ & Hall).
    unfold bucket_names in *. rewrite !fold_left_app. cbn [fold_left].
    rewrite IH. clear IH.
    set (names := fold_left _ fields [""]) in *.
    rewrite Map_has_names.
    assert (forall g,
               bucket g (fields ++ [(k, f)])
               = if String.eqb g (group_of f)
                 then bucket g fields ++ [(k, f)] else bucket g fields) as B.
    { intros g. rewrite bucket_app. simpl. unfold in_bucket. simpl.
      rewrite (String.eqb_sym (group_of f)).
      destruct (String.eqb g (group_of f)); auto. apply app_nil_r. }
    destruct (existsb _ names) eqn:E; cbn [negb].
    + rewrite Map_push_names by exact Hnd.
      apply map_ext. intros g. now rewrite B.
    + assert (~ In (group_of f) names) as Hn.
      { intros H. apply existsb_names in H. congruence. }
      rewrite Map_set_new, Map_push_last
        by (rewrite map_map; simpl; now rewrite map_id).
      rewrite map_app. simpl. f_equal.
      * apply map_ext_in. intros g Hg. rewrite B.
        destruct (String.eqb g (group_of f)) eqn:E'; auto.
        apply String.eqb_eq in E'. subst. contradiction.
      * rewrite B, String.eqb_refl. rewrite bucket_empty; auto.
        intros e He Heq. apply Hn. rewrite <- Heq. now apply Hall.
Qed.

Lemma flatten_buckets names fields :
  flatten (map (fun name => (name, bucket name fields)) names)
  = List.concat (map (fun name => bucket name fields) names).
Proof.
  unfold flatten. now rewrite map_map.
Qed.

Lemma buckets_cons_absent names entry fields :
  ~ In (group_of (snd entry)) names ->
  map (fun name => bucket name (entry :: fields)) names
  = map (fun name => bucket name fields) names.
Proof.
  intros H. apply map_ext_in. intros g Hg. simpl. unfold in_bucket at 1.
  destruct (String.eqb _ g) eqn:E; auto.
  apply String.eqb_eq in E. subst. contradiction.
Qed.

Lemma buckets_cons_present names entry fields :
  NoDup names ->
  In (group_of (snd entry)) names ->
  Permutation
    (List.concat (map (fun name => bucket name (entry :: fields)) names))
    (entry :: List.concat (map (fun name => bucket name fields) names)).
Proof.
  induction names as [|g names IH]; intros Hnd Hin; [destruct Hin|].
  inversion Hnd as [|? ? Hg Hnd']; subst. cbn [map List.concat].
  destruct (string_dec g (group_of (snd entry))) as [->|Hne].
  - rewrite buckets_cons_absent by exact Hg.
    simpl. unfold in_bucket at 1. now rewrite String.eqb_refl.
  - destruct Hin as [?|Hin]; [contradiction|].
    simpl bucket. unfold in_bucket at 1.
    destruct (String.eqb _ g) eqn:E.
    + apply String.eqb_eq in E. congruence.
    + rewrite (IH Hnd' Hin). apply Permutation_sym, Permutation_middle.
Qed.

Lemma buckets_permutation fields : forall names,
  NoDup names ->
  (forall entry, In entry fields -> In (group_of (snd entry)) names) ->
  Permutation (List.concat (map (fun name => bucket name fields) names))
    fields.
Proof.
  induction fields as [|e fields IH]; intros names Hnd Hall.
  - clear. induction names; simpl; auto using perm_nil.
  - eapply Permutation_trans.
    + apply buckets_cons_present; auto. apply Hall. simpl. auto.
    + constructor. apply IH; auto. intros e' H'. apply Hall. simpl. auto.
Qed.

Lemma runs_buckets names : forall fields,
  NoDup names ->
  declared_in_runs names fields ->
  List.concat (map (fun name => bucket name fields) names) = fields.
Proof.
  induction names as [|g names IH]; intros fields Hnd Hruns;
    inversion Hruns as [|? ? run rest Hrun Hrest]; subst; auto.
  inversion Hnd as [|? ? Hg Hnd']; subst. cbn [map List.concat].
  assert (forall name' fs, declared_in_runs name' fs ->
            forall e, In e fs -> In (group_of (snd e)) name') as Cover.
  { induction 1 as [|n ns r rs Hr _ IHr]; [simpl; tauto|].
    intros e [H|H]%in_app_or.
    - left. symmetry. now apply (proj1 (Forall_forall _ _) Hr).
    - right. now apply IHr. }
  rewrite bucket_app, (bucket_all _ _ Hrun).
  rewrite (bucket_empty g rest).
  - rewrite app_nil_r. f_equal.
    transitivity (List.concat (map (fun name => bucket name rest) names));
      [|now apply IH].
    f_equal. apply map_ext_in. intros g' Hg'.
    rewrite bucket_app, (bucket_empty g' run); auto.
    intros e He Heq.
    rewrite (proj1 (Forall_forall _ _) Hrun e He) in Heq. subst. contradiction.
  - intros e He Heq. apply Hg. rewrite <- Heq. now apply (Cover _ _ Hrest).
Qed.

Lemma buckets_runs fields names :
  declared_in_runs names
    (List.concat (map (fun name => bucket name fields) names)).
Proof.
  induction names as [|g names IH]; simpl; constructor; auto.
  apply Forall_forall. intros e He. apply filter_In in He.
  destruct He as [_ He]. now apply String.eqb_eq in He.
Qed.

End Buckets.

(** C3, as stated, at [{title: {group: 'Meta'}, id: {}}]: the partition
    flattens to [id, title], not to the declaration order [title, id]. *)
Lemma groupFields_flatten_counterexample :
  flatten (_groupFields (Examples.element_with Examples.titled_schema))
  = [ ("id", Examples.text_field);
      ("title", Examples.with_group "Meta" Examples.text_field) ]
  /\ flatten (_groupFields (Examples.element_with Examples.titled_schema))
     <> Object_entries (schema (Examples.element_with Examples.titled_schema)).
Proof.
  split; [reflexivity|]. cbv. discriminate.
Qed.

(** C3, amended.  For every schema, the group partition holds one bucket
    per name in first-seen order (the unnamed bucket first), each bucket
    listing its fields in declaration order; flattening it yields a
    permutation of the declaration order, and yields the declaration order
    itself exactly when the schema declares its fields bucket by bucket in
    that order. *)
Theorem groupFields_flatten_permutes :
  forall (el : FirebaseAutoform),
    _groupFields el
    = map (fun name => (name, bucket name (Object_entries (schema el))))
        (bucket_names (Object_entries (schema el)))
    /\ Permutation (flatten (_groupFields el)) (Object_entries (schema el))
    /\ (flatten (_groupFields el) = Object_entries (schema el) <->
        declared_in_runs (bucket_names (Object_entries (schema el)))
          (Object_entries (schema el))).
Proof.
  intros el.
  destruct (bucket_names_spec (Object_entries (schema el)))
    as (Hnd & _ & Hall).
  split; [apply groupFields_buckets|].
  rewrite groupFields_buckets, flatten_buckets. split.
  - now apply buckets_permutation.
  - split.
    + intros H. rewrite <- H at 2. apply buckets_runs.
    + now apply runs_buckets.
Qed.

(** ** Submission: validation failures (C4) *)

Section SubmissionFacts.
Context {engine : JsEngine}.

(** Validation changes nothing but the error store. *)
Lemma validate_each_frame fields : forall el el' result,
  validate_each fields el = (el', result) ->
  el' = set_errors el (_errors el').
Proof.
  induction fields as [|[k f] fields IH]; intros el el' result; simpl.
  - intros [= <- _]. now destruct el.
  - unfold _validateField.
    destruct (schema_get (schema el) k) as [field|].
    + destruct (violation field (value_of el k)) as [found|m]; cbn [bind].
      * intros H. apply IH in H. rewrite H. now destruct el.
      * intros [= <- _]. now destruct el.
    + intros [= <- _]. now destruct el.
Qed.

Lemma validateForm_frame el el' result :
  _validateForm el = (el', result) -> el' = set_errors el (_errors el').
Proof.
  unfold _validateForm.
  destruct (validate_each (Object_entries (schema el)) el) as [el1 [u|m]] eqn:E;
    intros [= <- _]; exact (validate_each_frame _ _ _ _ E).
Qed.

End SubmissionFacts.

(** C4.  For every submission of a form whose store covers the schema (as
    it does from initialization on) and whose whole-form validation leaves
    the ErrorStore non-empty, the handler stops there: the element differs
    from the one submitted in its error store only, and nothing is written
    or notified.  In particular, when exactly one required field is left
    empty and every other field passes, the ErrorStore ends as the single
    message "This field is required" under that field, and no notification
    of acceptance is emitted. *)
Theorem submit_stops_on_validation_errors :
  forall {engine : JsEngine} (backend : Backend) (el : FirebaseAutoform),
    store_covers el ->
    (forall el',
        _validateForm el = (el', Normal false) ->
        _handleSubmit backend el
        = {| element := el'; effects := []; completion := Normal tt |}
        /\ el' = set_errors el (_errors el')
        /\ _errors el' <> [])
    /\ (forall failing field,
          well_formed (schema el) ->
          (forall key, In key (Object_keys (_errors el)) ->
                       In key (Object_keys (schema el))) ->
          own_get failing (schema el) = Some field ->
          required field = true ->
          unset (value_of el failing) = true ->
          (forall other field',
              In (other, field') (schema el) -> other <> failing ->
              violation field' (value_of el other) = Normal None) ->
          _handleSubmit backend el
          = {| element :=
                 set_errors el [(failing, "This field is required")];
               effects := [];
               completion := Normal tt |}).
Proof.
  intros engine backend el Hcovers. split.
  - intros el' H. unfold _handleSubmit. rewrite H. split; [reflexivity|].
    split; [exact (validateForm_frame _ _ _ H)|].
    unfold _validateForm in H.
    destruct (validate_each _ el) as [el1 [u|m]]; [|discriminate].
    injection H as -> Hvalid. unfold isValid in Hvalid.
    intros Hnil. rewrite Hnil in Hvalid. discriminate.
  - intros failing field Hwf Hsub Hf Hr Hu Hothers.
    assert (forall k f,
               In (k, f) (schema el) ->
               violation f (value_of el k)
               = Normal (if String.eqb k failing
                         then Some "This field is required" else None))
      as Hall.
    { intros k f Hin. destruct (String.eqb k failing) eqn:E.
      - apply String.eqb_eq in E. subst k.
        rewrite (In_own_get _ _ _ _ Hwf Hin) in Hf. injection Hf as ->.
        now apply violation_required.
      - apply String.eqb_neq in E. now apply Hothers. }
    pose proof (validateForm_result el _ Hwf Hsub Hall) as V.
    cbv beta zeta in V. rewrite reported_single in V; auto.
    + unfold _handleSubmit. now rewrite V.
    + apply own_get_In in Hf. unfold Object_keys.
      change failing with (fst (failing, field)). now apply in_map.
Qed.

Lemma submit_stops_on_validation_errors_witness :
  store_covers Examples.half_filled_form
  /\ well_formed (schema Examples.half_filled_form)
  /\ unset (value_of Examples.half_filled_form "email") = true
  /\ _handleSubmit (engine := ReferenceEngine.engine)
       (backend_with (Normal tt)) Examples.half_filled_form
     = {| element :=
            set_errors Examples.half_filled_form
              [("email", "This field is required")];
          effects := [];
          completion := Normal tt |}.
Proof.
  assert (well_formed (schema Examples.half_filled_form)) as Hwf.
  { repeat constructor; simpl; intuition discriminate. }
  assert (store_covers Examples.half_filled_form) as Hcovers.
  { intros key [<-|[<-|[]]]; left; reflexivity. }
  split; [exact Hcovers|]. split; [exact Hwf|]. split; [reflexivity|].
  destruct (@submit_stops_on_validation_errors ReferenceEngine.engine
              (backend_with (Normal tt)) Examples.half_filled_form Hcovers)
    as [_ H].
  apply (H "email"
           (Examples.with_required
              (Examples.with_type "email" Examples.text_field)) Hwf).
  - simpl. tauto.
  - reflexivity.
  - reflexivity.
  - reflexivity.
  - intros other field' [[= <- <-]|[[= <- <-]|[]]] Hne;
      [reflexivity|congruence].
Defined.

(** ** Submission: the payload and persistence failures *)

Section PayloadFacts.
Context {engine : JsEngine}.

Lemma schema_get_in (fields : FormSchema) key :
  js_in key fields = true -> exists field, schema_get fields key = Some field.
Proof.
  unfold js_in, has_own, schema_get.
  destruct (own_get key fields) as [f|]; [now exists f|].
  simpl. intros ->. now exists builtin_member.
Qed.

(** With a store of distinct keys, all of them found [in] the schema, the
    [forEach] copies the kept properties in order and does not throw. *)
Lemma collect_fold el (entries : JsObject JsValue) : forall acc,
  NoDup (Object_keys entries) ->
  (forall key, In key (Object_keys acc) -> ~ In key (Object_keys entries)) ->
  (forall key, In key (Object_keys entries) -> js_in key (schema el) = true) ->
  fold_left
    (fun acc '(key, value) =>
       submitData <- acc ;;
       keep <-
         (if negb (is_empty_string value) then Normal true
          else match schema_get (schema el) key with
               | Some field => Normal (required field)
               | None => Throw (TypeError_message "undefined" "required")
               end) ;;
       Normal (if keep then obj_set key value submitData else submitData))
    entries (Normal acc)
  = Normal (acc ++ filter (keeps el) entries).
Proof.
  induction entries as [|[k v] entries IH]; intros acc Hnd Hdis Hin;
    cbn [fold_left filter].
  - now rewrite app_nil_r.
  - inversion Hnd as [|? ? Hk Hnd']; subst.
    destruct (schema_get_in (schema el) k) as [field Hf].
    { apply Hin. simpl. auto. }
    assert (~ In k (Object_keys acc)) as Hacc.
    { intros H. apply (Hdis k H). simpl. auto. }
    unfold keeps at 1. cbn [fst snd bind]. rewrite Hf.
    assert ((keep <-
               (if negb (is_empty_string v) then Normal true
                else Normal (required field)) ;;
             Normal (if keep then obj_set k v acc else acc))
            = Normal (if negb (is_empty_string v) || required field
                      then acc ++ [(k, v)] else acc)) as Step.
    { destruct (negb (is_empty_string v)); cbn [bind orb];
        [|destruct (required field)]; now rewrite ?obj_set_absent. }
    rewrite Step. clear Step.
    destruct (negb (is_empty_string v) || required field).
    + rewrite IH; auto.
      * now rewrite <- app_assoc.
      * intros key. unfold Object_keys. rewrite map_app, in_app_iff.
        intros [H|[<-|[]]]; [|exact Hk].
        intros H'. apply (Hdis key H). simpl. auto.
      * intros key H. apply Hin. simpl. auto.
    + apply IH; auto.
      * intros key H H'. apply (Hdis key H). simpl. auto.
      * intros key H. apply Hin. simpl. auto.
Qed.

Lemma collect_filter el :
  well_formed (_values el) ->
  (forall key, In key (Object_keys (_values el)) ->
               js_in key (schema el) = true) ->
  collect el = Normal (filter (keeps el) (_values el)).
Proof.
  intros Hwf Hin.
  apply (collect_fold el (_values el) [] Hwf); [simpl; tauto | exact Hin].
Qed.




End PayloadFacts.



(** ** Submission: the payload (C2) *)

Section SubmitData.
Context {engine : JsEngine}.




End SubmitData.

Section SubmitDataFacts.






Variable backend : Backend.
Variable el : FirebaseAutoform.
Hypothesis distinct : well_formed (_values el).
Hypothesis no_updatedAt : ~ In "_updatedAt" (Object_keys (_values el)).
Hypothesis no_createdAt : ~ In "_createdAt" (Object_keys (_values el)).





End SubmitDataFacts.

Section Acceptance.
Context {engine : JsEngine}.


End Acceptance.




(** ** The scenarios of the test suite and of the specification, run *)

Example email_shapes :
  _isValidEmail (engine := ReferenceEngine.engine) (JStr "a@b.co") = true
  /\ _isValidEmail (engine := ReferenceEngine.engine) (JStr "not-an-email")
     = false.
Proof. split; reflexivity. Qed.

Example initialize_name :
  _values (_initializeValues (Examples.element_with
                                [("name", Examples.text_field)]))
  = [("name", JStr "")]
  /\ _values (_initializeValues
                (Examples.with_data [("name", JStr "Ada"); ("age", JStr "36")]
                   (Examples.element_with [("name", Examples.text_field)])))
     = [("name", JStr "Ada")].
Proof. split; reflexivity. Qed.

Example partition_article :
  _groupFields (Examples.element_with Examples.article_schema)
  = [ ("", [("id", Examples.text_field)]);
      ("Meta", [ ("title", Examples.with_group "Meta" Examples.text_field);
                 ("status", Examples.with_group "Meta" Examples.text_field) ]) ].
Proof. reflexivity. Qed.

Example submit_empty_required_name :
  _handleSubmit (engine := ReferenceEngine.engine) (backend_with (Normal tt))
    (_initializeValues
       (Examples.element_with
          [("name", Examples.with_required Examples.text_field)]))
  = {| element :=
         set_errors
           (_initializeValues
              (Examples.element_with
                 [("name", Examples.with_required Examples.text_field)]))
           [("name", "This field is required")];
       effects := [];
       completion := Normal tt |}.
Proof. reflexivity. Qed.

Example submit_contact_form_offline :
  effects (_handleSubmit (engine := ReferenceEngine.engine)
             (backend_with (Normal tt)) Examples.filled_form)
  = [ FormSubmit
        [ ("name", JStr "Ada"); ("email", JStr "ada@example.com");
          ("_updatedAt", JNum 1000%float) ] "" "";
      SetTimeout 3000 ].
Proof. reflexivity. Qed.

Example reset_after_typing :
  _values (fst (_handleReset
                  (set_values
                     (Examples.element_with [("name", Examples.text_field)])
                     [("name", JStr "Test")])))
  = [("name", JStr "")].
Proof. reflexivity. Qed.

(** * Further properties of the component *)

(** ** The email pattern *)

Section RegExpFacts.

Lemma append_nil_r (s : string) : (s ++ "")%string = s.
Proof. induction s; simpl; congruence. Qed.

Lemma append_assoc (s1 s2 s3 : string) :
  ((s1 ++ s2) ++ s3)%string = (s1 ++ (s2 ++ s3))%string.
Proof. induction s1; simpl; congruence. Qed.

Lemma append_eq_nil (s1 s2 : string) :
  (s1 ++ s2)%string = "" -> s1 = "" /\ s2 = "".
Proof. destruct s1; simpl; [auto|discriminate]. Qed.

Lemma nullable_lang r : nullable r = true <-> lang r "".
Proof.
  split.
  - induction r; simpl; try discriminate; intros H.
    + constructor.
    + apply andb_true_iff in H. destruct H.
      change "" with ("" ++ "")%string. constructor; auto.
    + apply orb_true_iff in H. destruct H; [apply lang_alt_l|apply lang_alt_r];
        auto.
    + constructor.
  - intros H. remember "" as s eqn:E.
    induction H; simpl; auto; try discriminate.
    + apply append_eq_nil in E. destruct E.
      rewrite IHlang1, IHlang2; auto.
    + rewrite IHlang; auto.
    + rewrite IHlang; auto. apply orb_true_r.
Qed.

Lemma deriv_sound c r : forall s, lang (deriv c r) s -> lang r (String c s).
Proof.
  induction r; simpl; intros s H.
  - inversion H.
  - inversion H.
  - destruct (p c) eqn:E; inversion H; subst. now constructor.
  - assert (forall s, lang (ReCat (deriv c r1) r2) s ->
                      lang (ReCat r1 r2) (String c s)) as Hcat.
    { intros s' H'. inversion H'; subst.
      change (String c (s1 ++ s2)) with (String c s1 ++ s2)%string.
      constructor; auto. }
    destruct (nullable r1) eqn:N; auto.
    inversion H; subst; auto.
    change (String c s) with ("" ++ String c s)%string.
    constructor; auto. now apply nullable_lang.
  - inversion H; subst; [apply lang_alt_l|apply lang_alt_r]; auto.
  - inversion H; subst.
    change (String c (s1 ++ s2)) with (String c s1 ++ s2)%string.
    constructor; auto.
Qed.

Lemma deriv_complete c r t :
  lang r t -> forall rest, t = String c rest -> lang (deriv c r) rest.
Proof.
  induction 1; intros rest E; simpl.
  - discriminate.
  - injection E as -> <-. rewrite H. constructor.
  - destruct s1 as [|c1 s1]; simpl in E.
    + assert (nullable r1 = true) as N by now apply nullable_lang.
      rewrite N. apply lang_alt_r. auto.
    + injection E as -> <-.
      assert (lang (ReCat (deriv c r1) r2) (s1 ++ s2)%string)
        by (constructor; auto).
      destruct (nullable r1); auto. now apply lang_alt_l.
  - apply lang_alt_l. auto.
  - apply lang_alt_r. auto.
  - discriminate.
  - destruct s1 as [|c1 s1]; simpl in E.
    + apply IHlang2 in E. exact E.
    + injection E as -> <-. constructor; auto.
Qed.

(** [matches] decides membership in the language. *)
Lemma matches_lang s : forall r, matches r s = true <-> lang r s.
Proof.
  induction s as [|c s IH]; intros r; simpl.
  - apply nullable_lang.
  - rewrite IH. split.
    + apply deriv_sound.
    + intros H. exact (deriv_complete c r _ H s eq_refl).
Qed.

Lemma lang_cat_inv r1 r2 s :
  lang (ReCat r1 r2) s <->
  exists s1 s2, s = (s1 ++ s2)%string /\ lang r1 s1 /\ lang r2 s2.
Proof.
  split.
  - intros H. inversion H; subst. eauto.
  - intros (s1 & s2 & -> & H1 & H2). now constructor.
Qed.

Lemma lang_class_inv p s :
  lang (ReClass p) s <-> exists c, s = String c "" /\ p c = true.
Proof.
  split.
  - intros H. inversion H; subst. eauto.
  - intros (c & -> & H). now constructor.
Qed.

Lemma all_chars_app p s1 s2 :
  all_chars p (s1 ++ s2) = all_chars p s1 && all_chars p s2.
Proof.
  induction s1; simpl; auto. rewrite IHs1. apply andb_assoc.
Qed.

Lemma lang_star_class p s :
  lang (ReStar (ReClass p)) s <-> all_chars p s = true.
Proof.
  split.
  - intros H. remember (ReStar (ReClass p)) as r eqn:E.
    induction H; try discriminate; auto.
    injection E as ->. apply lang_class_inv in H.
    destruct H as (c & -> & Hc). simpl.
    rewrite IHlang2; auto. now rewrite Hc.
  - induction s as [|c s IH]; simpl; intros H.
    + constructor.
    + apply andb_true_iff in H. destruct H as [Hc Hs].
      change (String c s) with (String c "" ++ s)%string.
      constructor; auto. now constructor.
Qed.

(** [[p]+]: one or more characters of the class. *)
Lemma lang_plus_class p s :
  lang (RePlus (ReClass p)) s <-> s <> "" /\ all_chars p s = true.
Proof.
  unfold RePlus. rewrite lang_cat_inv. split.
  - intros (s1 & s2 & -> & H1 & H2).
    apply lang_class_inv in H1. destruct H1 as (c & -> & Hc).
    apply lang_star_class in H2. simpl. rewrite Hc, H2.
    split; [discriminate|reflexivity].
  - intros [Hne H]. destruct s as [|c s]; [contradiction|].
    simpl in H. apply andb_true_iff in H. destruct H as [Hc Hs].
    exists (String c ""), s. repeat split.
    + now constructor.
    + now apply lang_star_class.
Qed.

End RegExpFacts.

(** X1.  A string is a valid email for [_isValidEmail] exactly when it reads
    [local@domain.tld] with the three parts non-empty and free of
    whitespace and of [@]; [null], [undefined] and booleans are never
    valid. *)
Theorem isValidEmail_shape :
  forall {engine : JsEngine} (s : string),
    (_isValidEmail (JStr s) = true <->
     exists local domain tld,
       s = (local ++ "@" ++ domain ++ "." ++ tld)%string
       /\ local <> "" /\ domain <> "" /\ tld <> ""
       /\ all_chars not_space_or_at local = true
       /\ all_chars not_space_or_at domain = true
       /\ all_chars not_space_or_at tld = true)
    /\ _isValidEmail JNull = false
    /\ _isValidEmail JUndefined = false
    /\ (forall b, _isValidEmail (JBool b) = false).
Proof.
  intros engine s. split; [|repeat split; try (intros [|]); reflexivity].
  unfold _isValidEmail. cbn [ToString]. rewrite matches_lang.
  unfold email_regexp. split.
  - intros H.
    apply lang_cat_inv in H. destruct H as (local & s1 & -> & Hl & H).
    apply lang_cat_inv in H. destruct H as (at_ & s2 & -> & Ha & H).
    apply lang_cat_inv in H. destruct H as (domain & s3 & -> & Hd & H).
    apply lang_cat_inv in H. destruct H as (dot & tld & -> & Hp & Ht).
    apply lang_class_inv in Ha. destruct Ha as (c & -> & Hc).
    apply Ascii.eqb_eq in Hc. subst c.
    apply lang_class_inv in Hp. destruct Hp as (c & -> & Hc).
    apply Ascii.eqb_eq in Hc. subst c.
    apply lang_plus_class in Hl, Hd, Ht.
    exists local, domain, tld. intuition.
  - intros (local & domain & tld & -> & Hl & Hd & Ht & Al & Ad & At).
    repeat (apply lang_cat; try (apply lang_plus_class; now split)).
    all: constructor; apply Ascii.eqb_refl.
Qed.

(** ** Edge cases of the validation rules *)

Lemma first_violated_Throw {engine : JsEngine} rs field v m :
  first_violated rs field v = Throw m ->
  exists r, In r rs /\ guard r field v = true /\ violated r field v = Throw m.
Proof.
  induction rs as [|r rs IH]; simpl; [discriminate|].
  destruct (guard r field v) eqn:G.
  - destruct (violated r field v) as [[|]|m'] eqn:V; cbn [bind].
    + discriminate.
    + intros H. destruct (IH H) as (r' & ? & ? & ?). exists r'. auto.
    + intros [= ->]. exists r. auto.
  - intros H. destruct (IH H) as (r' & ? & ? & ?). exists r'. auto.
Qed.

(** X2.  Validating [null] or [undefined]: a required field reports "This
    field is required"; an optional field with a length bound in force
    throws the TypeError of reading [length]; an optional field without one
    completes normally.  For any other value, validation throws only when
    the pattern test does. *)
Theorem validation_of_null_and_undefined :
  forall {engine : JsEngine} (field : FieldSchema) (v : JsValue),
    (v = JNull \/ v = JUndefined ->
     (required field = true ->
      violation field v = Normal (Some "This field is required"))
     /\ (required field = false ->
         truthy (read_number (minLength field))
         || truthy (read_number (maxLength field)) = true ->
         violation field v = Throw (TypeError_message (ToString v) "length"))
     /\ (required field = false ->
         truthy (read_number (minLength field))
         || truthy (read_number (maxLength field)) = false ->
         exists found, violation field v = Normal found))
    /\ (v <> JNull -> v <> JUndefined ->
        forall m,
          violation field v = Throw m ->
          RegExp_test (ToString (read_string (pattern field))) (ToString v)
          = Throw m).
Proof.
  intros engine field v. split.
  - intros Hv. split; [|split].
    + intros Hr. apply violation_required; auto.
      destruct Hv; subst; reflexivity.
    + intros Hr Hl. unfold violation. rewrite Hr. cbn [andb].
      assert (truthy v = false) as Hf by (destruct Hv; subst; reflexivity).
      rewrite Hf, andb_false_r. cbn [andb].
      assert (get_length v = Throw (TypeError_message (ToString v) "length"))
        as Hg by (destruct Hv; subst; reflexivity).
      rewrite Hg. unfold and_then.
      destruct (truthy (read_number (minLength field))); [reflexivity|].
      simpl in Hl. rewrite Hl. reflexivity.
    + intros Hr Hl. apply orb_false_iff in Hl. destruct Hl as [H1 H2].
      unfold violation. rewrite Hr, H1, H2. cbn [andb and_then bind].
      assert (truthy v = false) as Hf by (destruct Hv; subst; reflexivity).
      rewrite Hf, !andb_false_r. cbn [bind].
      unfold and_then. cbn [bind].
      repeat match goal with
             | |- context [if ?b then _ else _] => destruct b
             end; eauto.
  - intros H1 H2 m. rewrite violation_refines_rules. intros H.
    apply first_violated_Throw in H. destruct H as (r & Hin & _ & Hr).
    assert (exists len, get_length v = Normal len) as [len Hg]
        by (destruct v; try contradiction; simpl; eauto).
    unfold rules in Hin. simpl in Hin.
    repeat (destruct Hin as [<-|Hin]); try contradiction; cbn in Hr;
      try discriminate; rewrite ?Hg in Hr; cbn in Hr; try discriminate.
    destruct (RegExp_test _ _); [discriminate|exact Hr].
Qed.

Lemma validation_of_null_and_undefined_witness :
  violation (engine := ReferenceEngine.engine)
    (Examples.with_minLength 2%float Examples.text_field) JNull
  = Throw "Cannot read properties of null (reading 'length')".
Proof.
  destruct (@validation_of_null_and_undefined ReferenceEngine.engine
              (Examples.with_minLength 2%float Examples.text_field) JNull)
    as [H _].
  destruct (H (or_introl eq_refl)) as (_ & H2 & _).
  exact (H2 eq_refl eq_refl).
Defined.

(** X3.  Length bounds are ignored for numbers and booleans, which have no
    [length]: validating them gives what the same field without
    [minLength] and [maxLength] gives. *)
Theorem length_rules_ignore_numbers_and_booleans :
  forall {engine : JsEngine} (field : FieldSchema),
    (forall n, violation field (JNum n)
               = violation (without_lengths field) (JNum n))
    /\ (forall b, violation field (JBool b)
                  = violation (without_lengths field) (JBool b)).
Proof.
  intros engine field.
  assert (forall v, get_length v = Normal JUndefined ->
                    violation field v = violation (without_lengths field) v)
    as H.
  { intros v Hg. unfold violation, without_lengths, type_is.
    cbn [required type minLength maxLength min max pattern read_number truthy].
    rewrite Hg. unfold and_then, js_less, js_greater. cbn [bind ToNumber].
    rewrite ltb_nan_l, ltb_nan_r.
    destruct (truthy (read_number (minLength field)));
      destruct (truthy (read_number (maxLength field))); reflexivity. }
  split; intros; apply H; reflexivity.
Qed.

(** X4.  A value that does not convert to a number ([NaN], [undefined], a
    string that is no numeral) passes both numeric bounds: validating it
    gives what the same field without [min] and [max] gives. *)
Theorem numeric_bounds_ignore_nan :
  forall {engine : JsEngine} (field : FieldSchema) (v : JsValue),
    ToNumber v = PrimFloat.nan ->
    violation field v = violation (without_bounds field) v.
Proof.
  intros engine field v Hn. unfold violation, without_bounds, type_is.
  cbn [required type minLength maxLength min max pattern read_number
         is_undefined negb andb].
  unfold js_less at 2, js_greater at 2. rewrite Hn, ltb_nan_l, ltb_nan_r.
  rewrite !andb_false_r. reflexivity.
Qed.

Lemma numeric_bounds_ignore_nan_witness :
  ToNumber (engine := ReferenceEngine.engine) (JStr "abc") = PrimFloat.nan
  /\ violation (engine := ReferenceEngine.engine) Examples.quantity_field
       (JStr "abc") = Normal None.
Proof.
  split; [reflexivity|].
  rewrite (@numeric_bounds_ignore_nan ReferenceEngine.engine
             Examples.quantity_field (JStr "abc") eq_refl).
  reflexivity.
Defined.

(** X5.  The required rule never fires on a number or a boolean: whether
    the field is required makes no difference to them, so the number 0
    typed into a required numeric field is accepted while a blank input,
    stored as [''], is refused. *)
Theorem required_rule_ignores_numbers_and_booleans :
  forall {engine : JsEngine} (field : FieldSchema),
    (forall n, violation field (JNum n) = violation (optional field) (JNum n))
    /\ (forall b, violation field (JBool b)
                  = violation (optional field) (JBool b))
    /\ (required field = true ->
        violation field (JStr "") = Normal (Some "This field is required")).
Proof.
  intros engine field. repeat split; intros.
  - unfold violation, optional, type_is. cbn. now rewrite andb_false_r.
  - unfold violation, optional, type_is. cbn. now rewrite andb_false_r.
  - now apply violation_required.
Qed.

(** ** Whole-form validation and input handling *)

Section FormVerdict.
Context {engine : JsEngine}.

Lemma own_get_reported (fields : FormSchema) (found : string -> option string)
  key :
  NoDup (Object_keys fields) ->
  own_get key
    (reported (map (fun '(fieldName, _) => (fieldName, found fieldName)) fields))
  = if has_own key fields then found key else None.
Proof.
  unfold has_own.
  induction fields as [|[k f] fields IH]; simpl; intros Hnd; auto.
  inversion Hnd as [|? ? Hk Hnd']; subst.
  destruct (String.eqb k key) eqn:E.
  - apply String.eqb_eq in E. subst k.
    destruct (found key) as [t|] eqn:F; simpl.
    + now rewrite String.eqb_refl.
    + rewrite IH by exact Hnd'.
      apply own_get_None in Hk. now rewrite Hk.
  - destruct (found k) as [t|]; simpl; [rewrite E|]; now apply IH.
Qed.

Lemma reported_nil_iff (fields : FormSchema) (found : string -> option string) :
  reported (map (fun '(fieldName, _) => (fieldName, found fieldName)) fields)
  = []
  <-> forall fieldName field, In (fieldName, field) fields ->
                              found fieldName = None.
Proof.
  split; [|apply reported_none].
  induction fields as [|[k f] fields IH]; simpl; [tauto|].
  destruct (found k) eqn:F; [discriminate|].
  intros H k' f' [[= <- <-]|Hin]; auto. now apply (IH H k' f').
Qed.

End FormVerdict.

(** X6.  Whole-form validation of a form whose store covers the schema and
    whose rules do not throw (distinct field names, prior errors under
    field names only): the ErrorStore ends
    with, for each field, exactly the message of that field's current
    value and nothing under other names; the verdict is true exactly when
    every field passes, and it is what [isValid] then reports; nothing but
    the ErrorStore changes; and validating again changes nothing. *)
Theorem validateForm_verdict :
  forall {engine : JsEngine} (el : FirebaseAutoform),
    store_covers el ->
    well_formed (schema el) ->
    (forall key, In key (Object_keys (_errors el)) ->
                 In key (Object_keys (schema el))) ->
    (forall fieldName field,
        In (fieldName, field) (schema el) ->
        exists found, violation field (value_of el fieldName) = Normal found) ->
    exists el',
      _validateForm el = (el', Normal (isValid el'))
      /\ el' = set_errors el (_errors el')
      /\ (forall fieldName field,
             In (fieldName, field) (schema el) ->
             violation field (value_of el fieldName)
             = Normal (own_get fieldName (_errors el')))
      /\ (forall key, ~ In key (Object_keys (schema el)) ->
                      own_get key (_errors el') = None)
      /\ (isValid el' = true <->
          forall fieldName field,
            In (fieldName, field) (schema el) ->
            violation field (value_of el fieldName) = Normal None)
      /\ _validateForm el' = (el', Normal (isValid el')).
Proof.
  intros engine el Hcovers Hwf Hsub Hnormal.
  set (found := fun key =>
                  match own_get key (schema el) with
                  | Some field =>
                      match violation field (value_of el key) with
                      | Normal m => m
                      | Throw _ => None
                      end
                  | None => None
                  end).
  assert (forall k f, In (k, f) (schema el) ->
                      violation f (value_of el k) = Normal (found k)) as Hall.
  { intros k f Hin. unfold found. rewrite (In_own_get _ _ _ _ Hwf Hin).
    destruct (Hnormal k f Hin) as [m ->]. reflexivity. }
  pose proof (validateForm_result el found Hwf Hsub Hall) as V.
  cbv zeta in V.
  set (errors := reported (map (fun '(k, _) => (k, found k)) (schema el))) in *.
  assert (isValid (set_errors el errors)
          = match errors with [] => true | _ :: _ => false end) as Hvalid
      by (unfold isValid; simpl; now destruct errors).
  exists (set_errors el errors). rewrite Hvalid.
  split; [exact V|]. split; [reflexivity|]. split; [|split; [|split]].
  - intros k f Hin. rewrite (Hall k f Hin). f_equal. cbn [_errors set_errors].
    unfold errors. rewrite own_get_reported by exact Hwf.
    assert (has_own k (schema el) = true) as ->; [|reflexivity].
    apply has_own_In. unfold Object_keys. change k with (fst (k, f)).
    now apply in_map.
  - intros key Hn. cbn [_errors set_errors]. unfold errors.
    rewrite own_get_reported by exact Hwf.
    destruct (has_own key (schema el)) eqn:E; auto.
    apply has_own_In in E. contradiction.
  - transitivity (errors = []).
    + destruct errors; split; congruence.
    + unfold errors. rewrite reported_nil_iff. split.
      * intros H k f Hin. rewrite (Hall k f Hin). f_equal. eauto.
      * intros H k f Hin. specialize (H k f Hin).
        rewrite (Hall k f Hin) in H. congruence.
  - pose proof (validateForm_result (set_errors el errors) found Hwf) as V'.
    cbv zeta in V'. cbn [schema set_errors _errors] in V'. fold errors in V'.
    rewrite V'.
    + reflexivity.
    + intros key Hk. apply keys_reported in Hk. rewrite map_map in Hk.
      rewrite (map_ext _ fst) in Hk by (now intros [k f]). exact Hk.
    + exact Hall.
Qed.

Lemma validateForm_verdict_witness :
  exists el',
    _validateForm (engine := ReferenceEngine.engine) Examples.half_filled_form
    = (el', Normal false)
    /\ own_get "email" (_errors el') = Some "This field is required"
    /\ own_get "name" (_errors el') = None.
Proof.
  destruct (@validateForm_verdict ReferenceEngine.engine
              Examples.half_filled_form) as (el' & V & _ & Hm & _ & _ & _).
  - intros key [<-|[<-|[]]]; left; reflexivity.
  - repeat constructor; simpl; intuition discriminate.
  - simpl. tauto.
  - intros k f [[= <- <-]|[[= <- <-]|[]]]; eexists; reflexivity.
  - exists el'.
    pose proof (Hm "email" _ (or_intror (or_introl eq_refl))) as He.
    pose proof (Hm "name" _ (or_introl eq_refl)) as Hn.
    assert (Normal (own_get "email" (_errors el'))
            = Normal (Some "This field is required")) as He'
        by (rewrite <- He; reflexivity).
    assert (Normal (own_get "name" (_errors el')) = @Normal (option string) None)
      as Hn' by (rewrite <- Hn; reflexivity).
    injection He' as He'. injection Hn' as Hn'.
    split; [|split; assumption].
    rewrite V. f_equal. f_equal. unfold isValid, Object_keys.
    destruct (_errors el'); [discriminate|reflexivity].
Defined.

(** X7.  Handling an input on a field of the schema stores the extracted
    value under that field, leaving every other value in place, and
    refreshes the message of that field alone; on a name the schema does
    not know it throws and changes nothing; and when validation throws the
    value is stored all the same while the errors stay as they were. *)
Theorem handleInput_updates_one_field :
  forall {engine : JsEngine} (el : FirebaseAutoform) (target : EventTarget)
         (fieldName : string),
    match schema_get (schema el) fieldName with
    | None =>
        _handleInput el target fieldName
        = (el, Throw (TypeError_message "undefined" "type"))
    | Some field =>
        exists el',
          fst (_handleInput el target fieldName) = el'
          /\ own_get fieldName (_values el')
             = Some (extract_value field target)
          /\ (forall key, key <> fieldName ->
                          own_get key (_values el') = own_get key (_values el))
          /\ (forall key, key <> fieldName ->
                          own_get key (_errors el') = own_get key (_errors el))
          /\ match violation field (extract_value field target) with
             | Normal found =>
                 snd (_handleInput el target fieldName) = Normal tt
                 /\ own_get fieldName (_errors el') = found
             | Throw m =>
                 snd (_handleInput el target fieldName) = Throw m
                 /\ _errors el' = _errors el
             end
    end.
Proof.
  intros engine el target fieldName. unfold _handleInput, _validateField.
  cbn [schema set_values _errors].
  destruct (schema_get (schema el) fieldName) as [field|]; [|reflexivity].
  destruct (violation field (extract_value field target)) as [found|m];
    cbn [bind fst snd]; eexists; (split; [reflexivity|]);
    cbn [_values _errors set_values set_errors].
  - split; [apply own_get_set_same|].
    split; [intros; now apply own_get_set_other|].
    split; [|split; [reflexivity|]]; destruct found;
      intros; rewrite ?own_get_set_other by congruence;
      rewrite ?own_get_set_same, ?own_get_delete_same;
      auto using own_get_delete_other.
  - split; [apply own_get_set_same|].
    split; [intros; now apply own_get_set_other|]. auto.
Qed.

(** ** The stores over the life of an element *)

Section StoreFacts.
Variable A : Type.
Implicit Types (o : JsObject A) (key : string) (v : A).

Lemma keys_obj_set key v o :
  Object_keys (obj_set key v o)
  = if has_own key o then Object_keys o else Object_keys o ++ [key].
Proof.
  unfold has_own. induction o as [|[k w] o IH]; simpl; auto.
  destruct (String.eqb k key) eqn:E; simpl; auto.
  rewrite IH. now destruct (own_get key o).
Qed.

Lemma well_formed_set key v o :
  well_formed o -> well_formed (obj_set key v o).
Proof.
  unfold well_formed. rewrite keys_obj_set.
  destruct (has_own key o) eqn:E; auto.
  intros H. apply NoDup_app; auto.
  - repeat constructor. simpl. tauto.
  - intros x Hx [<-|[]]. apply has_own_In in Hx. congruence.
Qed.

Lemma well_formed_delete key o :
  well_formed o -> well_formed (obj_delete key o).
Proof.
  unfold well_formed. induction o as [|[k w] o IH]; simpl; auto.
  intros H. inversion H as [|? ? Hk Hnd]; subst.
  destruct (String.eqb k key); simpl; auto.
  constructor; auto. intros Hin.
  apply (keys_delete A key k o) in Hin. tauto.
Qed.

End StoreFacts.

Section InitFacts.

Lemma set_defaults_keys (fields : FormSchema) : forall acc,
  NoDup (Object_keys acc ++ Object_keys fields) ->
  Object_keys
    (fold_left (fun values '(k, field) => obj_set k (initial_value field) values)
       fields acc)
  = Object_keys acc ++ Object_keys fields.
Proof.
  induction fields as [|[k f] fields IH]; intros acc Hnd; simpl.
  - now rewrite app_nil_r.
  - assert (has_own k acc = false) as Hk.
    { destruct (has_own k acc) eqn:E; auto. apply has_own_In in E.
      apply NoDup_remove_2 in Hnd. exfalso. apply Hnd.
      apply in_or_app. auto. }
    rewrite IH; rewrite keys_obj_set, Hk, <- app_assoc; auto.
Qed.

Lemma fold_left_preserves {S B : Type} (P : S -> Prop) (f : S -> B -> S)
  (items : list B) :
  (forall acc item, P acc -> P (f acc item)) ->
  forall acc, P acc -> P (fold_left f items acc).
Proof.
  intros Hf. induction items as [|item items IH]; simpl; auto.
Qed.

Lemma initializeValues_well_formed el :
  well_formed (_values (_initializeValues el)).
Proof.
  unfold _initializeValues. cbn [_values set_errors set_values].
  assert (well_formed (set_defaults (schema el))) as Hd.
  { unfold set_defaults. apply fold_left_preserves; [|apply NoDup_nil].
    intros acc [k f] H. now apply well_formed_set. }
  destruct (data el) as [record|]; auto.
  unfold override_with. apply fold_left_preserves; auto.
  intros acc [k v] H. destruct (js_in k (schema el)); auto.
  now apply well_formed_set.
Qed.

Lemma override_with_keys (fields : FormSchema) (record : JsObject JsValue) :
  forall values leaked,
    Object_keys values = Object_keys fields ++ leaked ->
    (forall key, In key leaked ->
                 inherited key = true /\ has_own key fields = false) ->
    exists leaked',
      Object_keys (override_with fields record values)
      = Object_keys fields ++ leaked'
      /\ (forall key, In key leaked' ->
                      inherited key = true /\ has_own key fields = false)
      /\ (forall key, In key leaked' ->
                      In key leaked \/ In key (Object_keys record)).
Proof.
  unfold override_with, Object_entries.
  induction record as [|[k v] record IH]; intros values leaked Hk Hl; simpl.
  - exists leaked. auto.
  - destruct (js_in k fields) eqn:J.
    + destruct (has_own k values) eqn:E.
      * destruct (IH (obj_set k v values) leaked) as (l' & H1 & H2 & H3); auto.
        { now rewrite keys_obj_set, E. }
        exists l'. intuition. destruct (H3 key); auto.
      * assert (has_own k fields = false) as Hown.
        { destruct (has_own k fields) eqn:O; auto.
          apply has_own_In in O.
          assert (In k (Object_keys values))
            by (rewrite Hk; apply in_or_app; auto).
          apply has_own_In in H. congruence. }
        destruct (IH (obj_set k v values) (leaked ++ [k]))
          as (l' & H1 & H2 & H3).
        { now rewrite keys_obj_set, E, Hk, app_assoc. }
        { intros key [H|[<-|[]]]%in_app_or; auto.
          unfold js_in in J. rewrite Hown in J. auto. }
        exists l'. split; auto. split; auto.
        intros key H. destruct (H3 key H) as [[?|[<-|[]]]%in_app_or|?]; auto.
    + destruct (IH values leaked) as (l' & H1 & H2 & H3); auto.
      exists l'. intuition. destruct (H3 key); auto.
Qed.

End InitFacts.

(** X8.  Initialization lists the fields of a schema (with distinct names)
    in declaration order; the only names it can add after them are names
    of the record that the schema inherits from [Object.prototype] and
    does not declare, and without a record it adds none.  The store has
    one entry per key. *)
Theorem initializeValues_keys :
  forall (el : FirebaseAutoform),
    well_formed (schema el) ->
    well_formed (_values (_initializeValues el))
    /\ exists leaked,
        Object_keys (_values (_initializeValues el))
        = Object_keys (schema el) ++ leaked
        /\ (forall key,
               In key leaked ->
               inherited key = true
               /\ has_own key (schema el) = false
               /\ exists record, data el = Some record
                                 /\ In key (Object_keys record))
        /\ (data el = None -> leaked = []).
Proof.
  intros el Hwf. split; [apply initializeValues_well_formed|].
  assert (Object_keys (set_defaults (schema el)) = Object_keys (schema el) ++ [])
    as Hd.
  { unfold set_defaults, Object_entries. rewrite app_nil_r.
    apply (set_defaults_keys (schema el) []). exact Hwf. }
  unfold _initializeValues. cbn [_values set_errors set_values].
  destruct (data el) as [record|].
  - destruct (override_with_keys (schema el) record _ [] Hd)
      as (leaked & H1 & H2 & H3); [simpl; tauto|].
    exists leaked. split; [exact H1|]. split; [|discriminate].
    intros key Hin. destruct (H2 key Hin) as [Hi Ho].
    repeat split; auto. exists record. split; auto.
    destruct (H3 key Hin) as [[]|]; auto.
  - exists []. split; [exact Hd|]. split; [simpl; tauto|auto].
Qed.

Lemma initializeValues_keys_witness :
  well_formed (schema Examples.driver_form)
  /\ well_formed (_values (_initializeValues Examples.driver_form)).
Proof.
  assert (well_formed (schema Examples.driver_form)) as Hwf
      by (repeat constructor; simpl; tauto).
  split; [exact Hwf|].
  exact (proj1 (initializeValues_keys Examples.driver_form Hwf)).
Defined.

Section Invariant.
Context {engine : JsEngine}.

Lemma fold_left_preserves_in {S B : Type} (P : S -> Prop) (f : S -> B -> S)
  (items : list B) :
  (forall acc item, In item items -> P acc -> P (f acc item)) ->
  forall acc, P acc -> P (fold_left f items acc).
Proof.
  induction items as [|item items IH]; simpl; auto.
Qed.

Lemma In_has_own {A : Type} (o : JsObject A) key v :
  In (key, v) o -> has_own key o = true.
Proof.
  intros H. apply has_own_In. unfold Object_keys.
  change key with (fst (key, v)). now apply in_map.
Qed.

Lemma stores_fit_same el el' :
  _values el' = _values el -> _errors el' = _errors el ->
  schema el' = schema el ->
  stores_fit el -> stores_fit el'.
Proof.
  unfold stores_fit. intros -> -> ->. auto.
Qed.

Lemma stores_fit_initializeValues el : stores_fit (_initializeValues el).
Proof.
  split; [apply initializeValues_well_formed|].
  split; [|split; [apply NoDup_nil|simpl; tauto]].
  unfold _initializeValues. cbn [_values schema set_errors set_values].
  assert (forall key, In key (Object_keys (set_defaults (schema el))) ->
                      js_in key (schema el) = true) as Hd.
  { unfold set_defaults, Object_entries.
    apply (fold_left_preserves_in
             (fun values => forall key, In key (Object_keys values) ->
                                        js_in key (schema el) = true)).
    - intros acc [k f] Hin H key Hk. apply keys_set in Hk.
      destruct Hk as [->|Hk]; auto.
      unfold js_in. now rewrite (In_has_own _ _ _ Hin).
    - simpl. tauto. }
  destruct (data el) as [record|]; auto.
  unfold override_with. apply fold_left_preserves; auto.
  intros acc [k v] H key. destruct (js_in k (schema el)) eqn:J; auto.
  intros Hk. apply keys_set in Hk. destruct Hk as [->|Hk]; auto.
Qed.

Lemma stores_fit_validateField el fieldName v el' :
  has_own fieldName (schema el) = true ->
  stores_fit el ->
  _validateField el fieldName v = Normal el' ->
  stores_fit el'.
Proof.
  intros Hown (H1 & H2 & H3 & H4). unfold _validateField.
  destruct (schema_get (schema el) fieldName) as [field|]; [|discriminate].
  destruct (violation field v) as [found|m]; [|discriminate].
  cbn [bind]. intros [= <-]. unfold stores_fit.
  cbn [_values _errors schema set_errors].
  repeat split; auto.
  - destruct found; [apply well_formed_set|]; now apply well_formed_delete.
  - intros key. destruct found; rewrite ?keys_set, keys_delete;
      intros H; repeat destruct H as [H|H]; subst; auto;
      destruct H; auto.
Qed.

Lemma stores_fit_validate_each fields : forall el el' result,
  (forall k f, In (k, f) fields -> has_own k (schema el) = true) ->
  stores_fit el ->
  validate_each fields el = (el', result) ->
  stores_fit el'.
Proof.
  induction fields as [|[k f] fields IH]; intros el el' result Hin Hfit; simpl.
  - now intros [= <- _].
  - destruct (_validateField el k (value_of el k)) as [el1|m] eqn:E.
    + assert (schema el1 = schema el) as Hs.
      { unfold _validateField in E.
        destruct (schema_get (schema el) k); [|discriminate].
        destruct (violation _ _); [|discriminate].
        injection E as <-. reflexivity. }
      apply IH.
      * intros k' f' H'. rewrite Hs. apply (Hin k' f'). simpl. auto.
      * apply (stores_fit_validateField el k (value_of el k) el1); auto.
        apply (Hin k f). simpl. auto.
    + now intros [= <- _].
Qed.

Lemma stores_fit_validateForm el el' result :
  stores_fit el -> _validateForm el = (el', result) -> stores_fit el'.
Proof.
  intros Hfit. unfold _validateForm.
  destruct (validate_each (Object_entries (schema el)) el) as [el1 [u|m]] eqn:E;
    intros [= <- _];
    apply (stores_fit_validate_each _ _ _ _ (fun k f => In_has_own _ k f)
             Hfit E).
Qed.

Lemma stores_fit_handleSubmit backend el :
  stores_fit el -> stores_fit (element (_handleSubmit backend el)).
Proof.
  intros Hfit. unfold _handleSubmit.
  destruct (_validateForm el) as [el1 [[|]|m]] eqn:V;
    pose proof (stores_fit_validateForm _ _ _ Hfit V) as H1; auto.
  unfold try_block.
  destruct (collect _) as [copied|m]; cbn [element];
    [|revert H1; apply stores_fit_same; reflexivity].
  unfold persist. cbn [_database path dataKey set_status].
  assert (forall e, stores_fit e ->
                    stores_fit (fst (post_actions e))) as Hpost.
  { intros e He. unfold post_actions, _handleReset.
    destruct (showSuccess e); cbn [resetOnSubmit set_status];
      destruct (resetOnSubmit e); cbn [fst];
      try apply (stores_fit_same _initializeValues e);
      try (revert He; apply stores_fit_same; reflexivity).
    all: eapply stores_fit_same;
      [| | |apply (stores_fit_initializeValues e)]; reflexivity. }
  destruct (_database el1) as [db|];
    [destruct (String.eqb (path el1) ""); cbn [negb];
     [|destruct (import_database backend) as [u|m];
       [destruct (String.eqb (dataKey el1) ""); cbn [negb];
        destruct (write backend) as [u'|m']|]]|].
  all: try (match goal with
            | |- context [post_actions ?e] =>
                pose proof (Hpost e) as Hp;
                destruct (post_actions e) as [el' after]
            end).
  all: cbn [element fst] in *.
  all: try (eapply stores_fit_same; [| | |apply Hp]; try reflexivity;
            revert H1; apply stores_fit_same; reflexivity).
  all: revert H1; apply stores_fit_same; reflexivity.
Qed.

Lemma stores_fit_step el el' : stores_fit el -> Step el el' -> stores_fit el'.
Proof.
  intros Hfit Hstep. destruct Hstep as [el el' changed Ha|el db|el target name Hown|el backend|el|el].
  - destruct Ha as (_ & _ & He & Hv & _ & _ & Hs & _). unfold updated.
    destruct (existsb (String.eqb "schema") changed) eqn:E; cbn [orb].
    + apply stores_fit_initializeValues.
    + destruct (existsb (String.eqb "data") changed);
        [apply stores_fit_initializeValues|].
      revert Hfit. apply stores_fit_same; auto.
      apply Hs. intros Hin.
      assert (existsb (String.eqb "schema") changed = true); [|congruence].
      apply existsb_exists. exists "schema". split; auto.
  - revert Hfit. apply stores_fit_same; reflexivity.
  - unfold _handleInput.
    assert (exists field, schema_get (schema el) name = Some field)
      as [field Hf].
    { apply schema_get_in. unfold js_in. now rewrite Hown. }
    rewrite Hf.
    assert (stores_fit
              (set_values el
                 (obj_set name (extract_value field target) (_values el))))
      as Hfit'.
    { destruct Hfit as (H1 & H2 & H3 & H4). unfold stores_fit.
      cbn [_values _errors schema set_values]. repeat split; auto.
      - now apply well_formed_set.
      - intros key Hk. apply keys_set in Hk. destruct Hk as [->|Hk]; auto.
        unfold js_in. now rewrite Hown. }
    destruct (_validateField _ name _) as [el1|m] eqn:E; cbn [fst]; auto.
    eapply stores_fit_validateField; [|exact Hfit'|exact E]. exact Hown.
  - now apply stores_fit_handleSubmit.
  - unfold _handleReset. cbn [fst].
    eapply stores_fit_same; [| | |apply (stores_fit_initializeValues el)];
      reflexivity.
  - revert Hfit. apply stores_fit_same; reflexivity.
Qed.

(** The store covers the schema from initialization on. *)
Lemma store_covers_same el el' :
  _values el' = _values el -> schema el' = schema el ->
  store_covers el -> store_covers el'.
Proof.
  unfold store_covers. intros -> ->. auto.
Qed.

Lemma set_defaults_covers (fields : FormSchema) key : forall acc,
  In key (Object_keys fields) \/ In key (Object_keys acc) ->
  In key
    (Object_keys
       (fold_left
          (fun values '(k, field) => obj_set k (initial_value field) values)
          fields acc)).
Proof.
  induction fields as [|[k f] fields IH]; intros acc H; simpl in *.
  - tauto.
  - apply IH. destruct H as [[<-|H]|H]; auto; right; apply keys_set; auto.
Qed.

Lemma store_covers_initializeValues el : store_covers (_initializeValues el).
Proof.
  intros key Hkey. left. apply has_own_In.
  unfold _initializeValues in *. cbn [_values schema set_errors set_values] in *.
  assert (In key (Object_keys (set_defaults (schema el)))) as Hd
      by (apply set_defaults_covers; auto).
  destruct (data el) as [record|]; auto.
  unfold override_with. apply fold_left_preserves; auto.
  intros acc [k v] H. destruct (js_in k (schema el)); auto.
  apply keys_set. auto.
Qed.

Lemma store_covers_handleSubmit backend el :
  store_covers el -> store_covers (element (_handleSubmit backend el)).
Proof.
  intros Hfit. unfold _handleSubmit.
  destruct (_validateForm el) as [el1 [[|]|m]] eqn:V;
    assert (store_covers el1) as H1
      by (rewrite (validateForm_frame _ _ _ V); revert Hfit;
          apply store_covers_same; reflexivity); auto.
  unfold try_block.
  destruct (collect _) as [copied|m]; cbn [element];
    [|revert H1; apply store_covers_same; reflexivity].
  unfold persist. cbn [_database path dataKey set_status].
  assert (forall e, store_covers e ->
                    store_covers (fst (post_actions e))) as Hpost.
  { intros e He. unfold post_actions, _handleReset.
    destruct (showSuccess e); cbn [resetOnSubmit set_status];
      destruct (resetOnSubmit e); cbn [fst];
      try (revert He; apply store_covers_same; reflexivity).
    all: eapply store_covers_same;
      [| |apply (store_covers_initializeValues e)]; reflexivity. }
  destruct (_database el1) as [db|];
    [destruct (String.eqb (path el1) ""); cbn [negb];
     [|destruct (import_database backend) as [u|m];
       [destruct (String.eqb (dataKey el1) ""); cbn [negb];
        destruct (write backend) as [u'|m']|]]|].
  all: try (match goal with
            | |- context [post_actions ?e] =>
                pose proof (Hpost e) as Hp;
                destruct (post_actions e) as [el' after]
            end).
  all: cbn [element fst] in *.
  all: try (eapply store_covers_same; [| |apply Hp]; try reflexivity;
            revert H1; apply store_covers_same; reflexivity).
  all: revert H1; apply store_covers_same; reflexivity.
Qed.

Lemma store_covers_step el el' : store_covers el -> Step el el' -> store_covers el'.
Proof.
  intros Hfit Hstep.
  destruct Hstep
    as [el el' changed Ha|el db|el target name Hown|el backend|el|el].
  - destruct Ha as (_ & _ & _ & Hv & _ & _ & Hs & _). unfold updated.
    destruct (existsb (String.eqb "schema") changed) eqn:E; cbn [orb].
    + apply store_covers_initializeValues.
    + destruct (existsb (String.eqb "data") changed);
        [apply store_covers_initializeValues|].
      revert Hfit. apply store_covers_same; auto.
      apply Hs. intros Hin.
      assert (existsb (String.eqb "schema") changed = true); [|congruence].
      apply existsb_exists. exists "schema". split; auto.
  - revert Hfit. apply store_covers_same; reflexivity.
  - unfold _handleInput.
    assert (exists field, schema_get (schema el) name = Some field)
      as [field Hf].
    { apply schema_get_in. unfold js_in. now rewrite Hown. }
    rewrite Hf.
    assert (store_covers
              (set_values el
                 (obj_set name (extract_value field target) (_values el))))
      as Hfit'.
    { intros key Hkey. cbn [_values schema set_values] in *.
      destruct (Hfit key Hkey) as [H|H]; auto.
      left. apply has_own_In, keys_set. right. now apply has_own_In. }
    destruct (_validateField _ name _) as [el1|m] eqn:E; cbn [fst]; auto.
    unfold _validateField in E. cbn [schema set_values] in E. rewrite Hf in E.
    destruct (violation field _); [|discriminate].
    injection E as <-. revert Hfit'. apply store_covers_same; reflexivity.
  - now apply store_covers_handleSubmit.
  - unfold _handleReset. cbn [fst].
    eapply store_covers_same; [| |apply (store_covers_initializeValues el)];
      reflexivity.
  - revert Hfit. apply store_covers_same; reflexivity.
Qed.

Lemma reachable_store_covers el : Reachable el -> store_covers el.
Proof.
  intros H. induction H as [el|el el' _ IH Hstep].
  - apply store_covers_initializeValues.
  - exact (store_covers_step el el' IH Hstep).
Qed.

End Invariant.

(** X9.  In every state an element reaches from [connectedCallback] on
    (property assignments followed by [updated], arrival of a database
    handle, edits of rendered fields, submissions, resets, banner timer),
    both stores hold one entry per key, every stored value sits under a
    name that [in] finds in the current schema, and every message sits
    under a field the current schema declares. *)
Theorem reachable_stores_fit :
  forall {engine : JsEngine} (el : FirebaseAutoform),
    Reachable el -> stores_fit el.
Proof.
  intros engine el H. induction H as [el|el el' _ IH Hstep].
  - apply stores_fit_initializeValues.
  - exact (stores_fit_step el el' IH Hstep).
Qed.

Lemma reachable_stores_fit_witness :
  Reachable (engine := ReferenceEngine.engine)
    (fst (_handleInput (engine := ReferenceEngine.engine)
            Examples.contact_form {| checked := false; value := "Ada" |}
            "name"))
  /\ stores_fit
       (fst (_handleInput (engine := ReferenceEngine.engine)
               Examples.contact_form {| checked := false; value := "Ada" |}
               "name")).
Proof.
  assert (Reachable (engine := ReferenceEngine.engine)
            (fst (_handleInput (engine := ReferenceEngine.engine)
                    Examples.contact_form
                    {| checked := false; value := "Ada" |} "name"))) as R.
  { eapply reach_step.
    - apply (reach_connected (Examples.element_with Examples.contact_schema)).
    - apply (step_input Examples.contact_form). reflexivity. }
  split; [exact R|].
  exact (@reachable_stores_fit ReferenceEngine.engine _ R).
Defined.

(** ** Outcomes of a submission *)


(** X11.  With no database handle or no path, a submission never touches
    the backend: it writes nothing, keeps the data key, and its whole
    outcome is the same whatever the SDK import and the write would have
    answered. *)
Theorem submit_offline_ignores_backend :
  forall {engine : JsEngine} (backend backend' : Backend)
         (el : FirebaseAutoform),
    _database el = None \/ path el = "" ->
    Date_now backend 0 = Date_now backend' 0 ->
    _handleSubmit backend el = _handleSubmit backend' el
    /\ (forall effect,
           In effect (effects (_handleSubmit backend el)) ->
           match effect with
           | DbUpdate _ _ | DbSet _ _ _ => False
           | _ => True
           end)
    /\ dataKey (element (_handleSubmit backend el)) = dataKey el.
Proof.
  intros engine backend backend' el Hoff Hnow. unfold _handleSubmit.
  destruct (_validateForm el) as [el1 [[|]|m]] eqn:V;
    pose proof (validateForm_frame _ _ _ V) as Hframe;
    try (rewrite Hframe; repeat split; simpl; tauto).
  unfold try_block.
  destruct (collect _) as [copied|m];
    [|rewrite Hframe; repeat split; cbn;
      intros effect [<-|[]]; exact I].
  unfold persist. rewrite Hnow.
  cbn [_database path dataKey set_status].
  assert (_database el1 = _database el /\ path el1 = path el
          /\ dataKey el1 = dataKey el) as (Hd & Hp & Hk)
      by (rewrite Hframe; repeat split).
  rewrite Hd, Hp.
  assert (forall e effect,
             In effect (snd (post_actions e)) ->
             match effect with
             | DbUpdate _ _ | DbSet _ _ _ => False
             | _ => True
             end) as Hpost.
  { intros e effect. unfold post_actions, _handleReset.
    destruct (showSuccess e); cbn [resetOnSubmit set_status];
      destruct (resetOnSubmit e); cbn;
      intros H; repeat destruct H as [<-|H]; try destruct H; exact I. }
  assert (forall e, dataKey (fst (post_actions e)) = dataKey e) as Hkey.
  { intros e. unfold post_actions, _handleReset.
    destruct (showSuccess e); cbn [resetOnSubmit set_status];
      destruct (resetOnSubmit e); reflexivity. }
  destruct Hoff as [Hoff|Hoff]; rewrite Hoff;
    [|destruct (_database el); cbn [String.eqb negb]].
  all: match goal with
       | |- context [post_actions ?e] =>
           pose proof (Hpost e) as Hp'; pose proof (Hkey e) as Hk';
           destruct (post_actions e) as [el' after]
       end.
  all: cbn [element effects fst snd app dataKey set_status] in *.
  all: split; [reflexivity|]; split;
    [intros effect [<-|H]; [exact I|now apply Hp']|].
  all: rewrite Hk'; exact Hk.
Qed.

Lemma submit_offline_ignores_backend_witness :
  _handleSubmit (engine := ReferenceEngine.engine)
    (backend_with (Normal tt)) Examples.filled_form
  = _handleSubmit (engine := ReferenceEngine.engine)
      (backend_with (Throw "PERMISSION_DENIED")) Examples.filled_form.
Proof.
  apply (@submit_offline_ignores_backend ReferenceEngine.engine
           (backend_with (Normal tt)) (backend_with (Throw "PERMISSION_DENIED"))
           Examples.filled_form (or_introl eq_refl) eq_refl).
Defined.

Section AcceptedSubmission.
Context {engine : JsEngine}.
Variable backend : Backend.
Variables el el1 : FirebaseAutoform.
Hypothesis valid : _validateForm el = (el1, Normal true).
Hypothesis distinct : well_formed (_values el).
Hypothesis known :
  forall key, In key (Object_keys (_values el)) -> js_in key (schema el) = true.

(** The submission of a valid form, once the [forEach] is through. *)
Lemma handleSubmit_valid :
  _handleSubmit backend el
  = let '(el2, written, submitData, answer) :=
      persist backend (set_status el1 true false "")
        (obj_set "_updatedAt" (JNum (Date_now backend 0))
           (filter (keeps el) (_values el))) in
    match answer with
    | Normal _ =>
        let '(el3, after) := post_actions el2 in
        {| element := set_status el3 false (_showSuccessMessage el3)
                        (_globalError el3);
           effects := written
                        ++ [FormSubmit submitData (dataKey el2) (path el2)]
                        ++ after;
           completion := Normal tt |}
    | Throw m =>
        {| element := set_status el2 false (_showSuccessMessage el2) m;
           effects := written ++ [FormError m];
           completion := Normal tt |}
    end.
Proof.
  pose proof (validateForm_frame _ _ _ valid) as Hframe.
  unfold _handleSubmit. rewrite valid. unfold try_block.
  rewrite collect_filter
    by (rewrite Hframe; cbn [set_status set_errors _values schema]; assumption).
  replace (keeps (set_status el1 true false "")) with (keeps el)
    by (rewrite Hframe; reflexivity).
  replace (_values (set_status el1 true false "")) with (_values el)
    by (rewrite Hframe; reflexivity).
  destruct (persist _ _ _) as [[[el2 written] submitData] [u|m]];
    [destruct (post_actions el2)|]; reflexivity.
Qed.

End AcceptedSubmission.



Section Persisted.
Context {engine : JsEngine}.


Lemma post_actions_effects e effect :
  In effect (snd (post_actions e)) ->
  effect = SetTimeout 3000 \/ effect = FormReset.
Proof.
  unfold post_actions, _handleReset.
  destruct (showSuccess e); cbn [resetOnSubmit set_status];
    destruct (resetOnSubmit e); cbn; intuition.
Qed.

End Persisted.





(** X15.  In every state an element reaches, a submission dispatches
    [form-error] only for a failure of the backend: a database and a path
    are configured and the message is the one the SDK import or the write
    threw. *)
Theorem reachable_form_error_is_backend_failure :
  forall {engine : JsEngine} (el : FirebaseAutoform),
    Reachable el ->
    forall (backend : Backend) (m : string),
      In (FormError m) (effects (_handleSubmit backend el)) ->
      _database el <> None
      /\ path el <> ""
      /\ (import_database backend = Throw m \/ write backend = Throw m).
Proof.
  intros engine el Hreach backend m.
  assert (stores_fit el) as (Hwf & Hknown & _ & _).
  { induction Hreach as [el|el el' _ IH Hstep].
    - apply stores_fit_initializeValues.
    - exact (stores_fit_step el el' IH Hstep). }
  destruct (_validateForm el) as [el1 [[|]|m']] eqn:V.
  - pose proof (validateForm_frame _ _ _ V) as Hframe.
    rewrite (handleSubmit_valid backend el el1 V Hwf Hknown).
    unfold persist. rewrite Hframe.
    cbn [set_status set_errors _database path dataKey].
    destruct (_database el) as [db|];
      [destruct (String.eqb (path el) "") eqn:P; cbn [negb];
       [|destruct (import_database backend) as [u|m1];
         [destruct (String.eqb (dataKey el) ""); cbn [negb];
          destruct (write backend) as [u'|m2]|]]|].
    all: try (match goal with
              | |- context [post_actions ?e] =>
                  pose proof (post_actions_effects e (FormError m)) as Hpost;
                  destruct (post_actions e) as [el3 after]
              end).
    all: cbn [effects app snd] in *; intros H.
    all: repeat (destruct H as [H|H]; try discriminate); try contradiction.
    all: try (destruct (Hpost H); discriminate).
    all: apply String.eqb_neq in P.
    all: injection H as <-; repeat split; auto; discriminate.
  - unfold _handleSubmit. rewrite V. simpl. tauto.
  - unfold _handleSubmit. rewrite V. simpl. tauto.
Qed.

Lemma reachable_form_error_is_backend_failure_witness :
  Reachable (engine := ReferenceEngine.engine) Examples.online_form
  /\ In (FormError "PERMISSION_DENIED")
        (effects (_handleSubmit (engine := ReferenceEngine.engine)
                    (backend_with (Throw "PERMISSION_DENIED"))
                    Examples.online_form))
  /\ _database Examples.online_form <> None
  /\ path Examples.online_form <> ""
  /\ (import_database (backend_with (Throw "PERMISSION_DENIED"))
      = Throw "PERMISSION_DENIED"
      \/ write (backend_with (Throw "PERMISSION_DENIED"))
         = Throw "PERMISSION_DENIED").
Proof.
  assert (Reachable (engine := ReferenceEngine.engine) Examples.online_form)
    as R.
  { apply reach_step
      with (el := fst (_handleInput (engine := ReferenceEngine.engine)
                         (set_database Examples.users_form
                            (Some DatabaseHandle))
                         {| checked := false; value := "Ada" |} "name")).
    - apply reach_step
        with (el := set_database Examples.users_form (Some DatabaseHandle)).
      + apply reach_step with (el := Examples.users_form).
        * apply (reach_connected Examples.connecting_form).
        * apply step_database.
      + apply (step_input
                 (set_database Examples.users_form (Some DatabaseHandle))).
        reflexivity.
    - apply (step_input
               (fst (_handleInput (engine := ReferenceEngine.engine)
                       (set_database Examples.users_form
                          (Some DatabaseHandle))
                       {| checked := false; value := "Ada" |} "name"))
               {| checked := false; value := "ada@example.com" |} "email").
      reflexivity. }
  assert (In (FormError "PERMISSION_DENIED")
            (effects (_handleSubmit (engine := ReferenceEngine.engine)
                        (backend_with (Throw "PERMISSION_DENIED"))
                        Examples.online_form))) as Hin.
  { right. left. reflexivity. }
  split; [exact R|]. split; [exact Hin|].
  exact (@reachable_form_error_is_backend_failure ReferenceEngine.engine
           Examples.online_form R
           (backend_with (Throw "PERMISSION_DENIED")) "PERMISSION_DENIED"
           Hin).
Defined.

(** ** Buckets and layout *)

Lemma bucket_names_snoc (fields : list Entry) k f :
  bucket_names (fields ++ [(k, f)])
  = if existsb (fun name => String.eqb name (group_of f)) (bucket_names fields)
    then bucket_names fields
    else bucket_names fields ++ [group_of f].
Proof.
  unfold bucket_names. rewrite fold_left_app. reflexivity.
Qed.

Lemma bucket_names_shape (fields : list Entry) :
  exists names,
    bucket_names fields = "" :: names
    /\ forall name, In name names ->
                    exists entry, In entry fields
                                  /\ group_of (snd entry) = name.
Proof.
  induction fields as [|[k f] fields IH] using rev_ind.
  - exists []. simpl. split; [reflexivity|tauto].
  - destruct IH as (names & Hn & Hall).
    assert (bucket_names (fields ++ [(k, f)])
            = if existsb (fun name => String.eqb name (group_of f))
                   ("" :: names)
              then "" :: names
              else "" :: names ++ [group_of f]) as E.
    { rewrite bucket_names_snoc, Hn. reflexivity. }
    destruct (existsb _ ("" :: names)) in E.
    + exists names. split; auto. intros name H.
      destruct (Hall name H) as (e & He & Hg). exists e. split; auto.
      apply in_or_app. auto.
    + exists (names ++ [group_of f]). split; [exact E|].
      intros name [H|[<-|[]]]%in_app_or.
      * destruct (Hall name H) as (e & He & Hg). exists e. split; auto.
        apply in_or_app. auto.
      * exists (k, f). split; auto. apply in_or_app. simpl. auto.
Qed.

(** X16.  The partition always starts with the unnamed bucket, which holds
    the fields without a group (possibly none); after it comes one bucket
    per group name that some field carries, without repetition, each
    holding exactly the fields of that group in declaration order and so
    never empty. *)
Theorem groupFields_structure :
  forall (el : FirebaseAutoform),
    exists names,
      _groupFields el
      = ("", bucket "" (Object_entries (schema el)))
          :: map (fun name => (name, bucket name (Object_entries (schema el))))
               names
      /\ NoDup names
      /\ (forall name,
             In name names <->
             name <> ""
             /\ exists entry, In entry (Object_entries (schema el))
                              /\ group (snd entry) = Some name)
      /\ (forall name, In name names ->
                       bucket name (Object_entries (schema el)) <> []).
Proof.
  intros el. rewrite groupFields_buckets.
  destruct (bucket_names_spec (Object_entries (schema el)))
    as (Hnd & _ & Hcover).
  destruct (bucket_names_shape (Object_entries (schema el)))
    as (names & Hn & Hsome).
  rewrite Hn in *. exists names. split; [reflexivity|].
  inversion Hnd as [|? ? Hhead Hnd']; subst.
  assert (forall name, In name names ->
            name <> ""
            /\ exists entry, In entry (Object_entries (schema el))
                             /\ group (snd entry) = Some name) as Hin.
  { intros name H. assert (name <> "") as Hne by (intros ->; contradiction).
    split; auto. destruct (Hsome name H) as (e & He & Hg).
    exists e. split; auto. unfold group_of in Hg.
    destruct (group (snd e)); congruence. }
  split; [exact Hnd'|]. split.
  - intros name. split; [apply Hin|].
    intros (Hne & e & He & Hg).
    destruct (Hcover e He) as [H|H]; unfold group_of in H; rewrite Hg in H;
      [congruence|exact H].
  - intros name H Hempty. destruct (Hin name H) as (_ & e & He & Hg).
    assert (In e (bucket name (Object_entries (schema el)))) as Hb.
    { apply filter_In. split; auto. unfold in_bucket, group_of.
      rewrite Hg. apply String.eqb_refl. }
    rewrite Hempty in Hb. destruct Hb.
Qed.

Section FirstSeen.

Lemma existsb_filter_other (g a : string) (names : list string) :
  String.eqb a g = false ->
  existsb (fun name => String.eqb name g)
    (filter (fun other => negb (String.eqb other a)) names)
  = existsb (fun name => String.eqb name g) names.
Proof.
  intros Hne. induction names as [|x names IH]; simpl; auto.
  destruct (String.eqb x a) eqn:E; simpl.
  - apply String.eqb_eq in E. subst x. now rewrite Hne.
  - now rewrite IH.
Qed.

Lemma existsb_first_occurrences g names :
  existsb (fun name => String.eqb name g) (first_occurrences names)
  = existsb (fun name => String.eqb name g) names.
Proof.
  induction names as [|a names IH]; simpl; auto.
  destruct (String.eqb a g) eqn:E; simpl; auto.
  now rewrite existsb_filter_other.
Qed.

Lemma In_first_occurrences g names :
  In g (first_occurrences names) <-> In g names.
Proof.
  assert (forall l, In g l <->
                    existsb (fun name => String.eqb name g) l = true) as Hb.
  { intros l. rewrite existsb_exists. split.
    - intros H. exists g. split; auto. apply String.eqb_refl.
    - intros (x & Hx & E). apply String.eqb_eq in E. now subst x. }
  now rewrite !Hb, existsb_first_occurrences.
Qed.

(** A name added at the end is kept exactly when it is new. *)
Lemma first_occurrences_snoc names g :
  first_occurrences (names ++ [g])
  = if existsb (fun name => String.eqb name g) names
    then first_occurrences names
    else first_occurrences names ++ [g].
Proof.
  induction names as [|a names IH]; simpl; auto.
  rewrite IH. destruct (existsb _ names) eqn:E.
  - now rewrite orb_true_r.
  - rewrite orb_false_r, filter_app. simpl.
    rewrite (String.eqb_sym g a).
    destruct (String.eqb a g); simpl; [now rewrite app_nil_r|reflexivity].
Qed.

(** The names of the map are the unnamed bucket and then the groups in
    first-seen order. *)
Lemma bucket_names_first_seen (fields : list Entry) :
  bucket_names fields = "" :: group_names fields.
Proof.
  change ("" :: group_names fields)
    with (first_occurrences
            ("" :: map (fun entry => group_of (snd entry)) fields)).
  induction fields as [|[k f] fields IH] using rev_ind; [reflexivity|].
  rewrite bucket_names_snoc, IH, map_app, app_comm_cons.
  cbn [map snd].
  now rewrite first_occurrences_snoc, existsb_first_occurrences.
Qed.

End FirstSeen.

(** X17.  [render] lays the form out as the ungrouped fields first, placed
    directly in the form, followed by one fieldset per group, the groups
    in the order in which the declaration of the fields first names them;
    the legend of a fieldset is the group name and its fields are those of
    the group in declaration order; no group is named twice, every group
    that a field carries has its fieldset, and no fieldset is empty. *)
Theorem layout_structure :
  forall (el : FirebaseAutoform),
    layout el
    = Fields (bucket "" (Object_entries (schema el)))
        :: map (fun name =>
                  Fieldset name (bucket name (Object_entries (schema el))))
             (group_names (Object_entries (schema el)))
    /\ NoDup (group_names (Object_entries (schema el)))
    /\ (forall name,
           In name (group_names (Object_entries (schema el))) <->
           name <> ""
           /\ exists entry, In entry (Object_entries (schema el))
                            /\ group (snd entry) = Some name)
    /\ (forall name, In name (group_names (Object_entries (schema el))) ->
                     bucket name (Object_entries (schema el)) <> []).
Proof.
  intros el.
  destruct (bucket_names_spec (Object_entries (schema el)))
    as (Hnd & _ & Hcover).
  rewrite bucket_names_first_seen in Hnd, Hcover.
  inversion Hnd as [|? ? Hhead Hnd']; subst.
  assert (forall name,
            In name (group_names (Object_entries (schema el))) ->
            name <> ""
            /\ exists entry, In entry (Object_entries (schema el))
                             /\ group (snd entry) = Some name) as Hin.
  { intros name H. assert (name <> "") as Hname by (intros ->; contradiction).
    split; auto. unfold group_names in H. apply filter_In in H.
    destruct H as [H _]. apply In_first_occurrences, in_map_iff in H.
    destruct H as (e & Hg & He). exists e. split; auto.
    unfold group_of in Hg. destruct (group (snd e)); congruence. }
  assert (forall name,
            In name (group_names (Object_entries (schema el))) ->
            bucket name (Object_entries (schema el)) <> []) as Hne.
  { intros name H Hempty. destruct (Hin name H) as (_ & e & He & Hg).
    assert (In e (bucket name (Object_entries (schema el)))) as Hb.
    { apply filter_In. split; auto. unfold in_bucket, group_of.
      rewrite Hg. apply String.eqb_refl. }
    rewrite Hempty in Hb. destruct Hb. }
  split; [|split; [exact Hnd'|split; [|exact Hne]]].
  - unfold layout. rewrite groupFields_buckets, bucket_names_first_seen.
    cbn [map String.eqb negb andb]. f_equal. rewrite map_map.
    apply map_ext_in. intros name H.
    destruct (Hin name H) as [Hname _].
    apply String.eqb_neq in Hname. rewrite Hname. cbn [negb andb].
    specialize (Hne name H).
    destruct (bucket name (Object_entries (schema el))); [contradiction|].
    reflexivity.
  - intros name. split; [apply Hin|].
    intros (Hname & e & He & Hg).
    destruct (Hcover e He) as [H|H]; unfold group_of in H; rewrite Hg in H;
      [congruence|exact H].
Qed.

(** ** A fresh form *)

(** X18.  [isValid] only reflects the errors reported so far: right after
    initialization it is true, yet when the schema (distinct names, no record
    to edit, no rule throwing on the initial values) has a required field
    that is not a checkbox and has no default, whole-form validation of that
    same state fails with "This field is required" under that field. *)
Theorem fresh_form_reports_valid :
  forall {engine : JsEngine} (el : FirebaseAutoform) (fieldName : string)
         (field : FieldSchema),
    well_formed (schema el) ->
    data el = None ->
    In (fieldName, field) (schema el) ->
    required field = true ->
    default field = JUndefined ->
    type_is field "checkbox" = false ->
    (forall name f, In (name, f) (schema el) ->
                    exists found, violation f (initial_value f) = Normal found) ->
    isValid (_initializeValues el) = true
    /\ exists el',
        _validateForm (_initializeValues el) = (el', Normal false)
        /\ own_get fieldName (_errors el') = Some "This field is required".
Proof.
  intros engine el fieldName field Hwf Hdata Hin Hreq Hdef Htype Hnormal.
  split; [reflexivity|].
  assert (forall name f, In (name, f) (schema el) ->
            value_of (_initializeValues el) name = initial_value f) as Hval.
  { intros name f H. unfold value_of.
    destruct (initializeValues_get el name Hwf) as [Hg _];
      [now rewrite Hdata|].
    rewrite Hg, Hdata, (In_own_get _ _ _ _ Hwf H). reflexivity. }
  set (found := fun key =>
                  match own_get key (schema el) with
                  | Some f =>
                      match violation f (initial_value f) with
                      | Normal m => m
                      | Throw _ => None
                      end
                  | None => None
                  end).
  assert (forall k f, In (k, f) (schema (_initializeValues el)) ->
            violation f (value_of (_initializeValues el) k)
            = Normal (found k)) as Hall.
  { intros k f H. rewrite (Hval k f H). unfold found.
    rewrite (In_own_get _ _ _ _ Hwf H).
    destruct (Hnormal k f H) as [m ->]. reflexivity. }
  pose proof (validateForm_result (_initializeValues el) found Hwf) as V.
  cbv zeta in V.
  change (schema (_initializeValues el)) with (schema el) in V.
  set (errors := reported (map (fun '(k, _) => (k, found k)) (schema el)))
    in V.
  assert (own_get fieldName errors = Some "This field is required") as Hmsg.
  { unfold errors. rewrite own_get_reported by exact Hwf.
    rewrite (In_has_own _ _ _ Hin). unfold found.
    rewrite (In_own_get _ _ _ _ Hwf Hin), violation_required; auto.
    unfold initial_value. now rewrite Hdef, Htype. }
  exists (set_errors (_initializeValues el) errors). split; [|exact Hmsg].
  rewrite V; [|simpl; tauto|exact Hall].
  destruct errors; [discriminate|reflexivity].
Qed.

Lemma fresh_form_reports_valid_witness :
  isValid Examples.contact_form = true
  /\ exists el',
      _validateForm (engine := ReferenceEngine.engine) Examples.contact_form
      = (el', Normal false)
      /\ own_get "name" (_errors el') = Some "This field is required".
Proof.
  apply (@fresh_form_reports_valid ReferenceEngine.engine
           (Examples.element_with Examples.contact_schema) "name"
           (Examples.with_required Examples.text_field)).
  - repeat constructor; simpl; intuition discriminate.
  - reflexivity.
  - simpl. auto.
  - reflexivity.
  - reflexivity.
  - reflexivity.
  - intros name f [[= <- <-]|[[= <- <-]|[]]]; eexists; reflexivity.
Defined.

(** ** A rule that throws during a submission *)

Section ThrowingRule.
Context {engine : JsEngine}.

Lemma validate_each_app fields1 fields2 : forall el,
  validate_each (fields1 ++ fields2) el
  = match validate_each fields1 el with
    | (el1, Normal _) => validate_each fields2 el1
    | (el1, Throw m) => (el1, Throw m)
    end.
Proof.
  induction fields1 as [|[k f] fields1 IH]; intros el; simpl; auto.
  destruct (_validateField el k (value_of el k)); auto.
Qed.

Lemma own_get_fold_record_message found key : forall errors,
  ~ In key (map fst found) ->
  own_get key (fold_left record_message found errors) = own_get key errors.
Proof.
  induction found as [|[k m] found IH]; intros errors Hn; simpl; auto.
  rewrite IH by (simpl in Hn; tauto).
  assert (k <> key) by (simpl in Hn; tauto).
  destruct m; simpl; rewrite ?own_get_set_other by assumption;
    now apply own_get_delete_other.
Qed.

End ThrowingRule.

(** X19.  In a form whose store covers the schema: when, in declaration
    order, the fields before some field validate without throwing and that
    field's rule throws (as for [null] under a length bound), the
    submission handler throws that error itself: nothing
    is written or dispatched, not even [form-error]; the loading flag, the
    banners and the values stay as they were; and only the messages of the
    fields before the throwing one may have changed. *)
Theorem submit_rethrows_validation_error :
  forall {engine : JsEngine} (backend : Backend) (el : FirebaseAutoform)
         (before after : FormSchema) (fieldName : string)
         (field : FieldSchema) (m : string),
    store_covers el ->
    well_formed (schema el) ->
    schema el = before ++ (fieldName, field) :: after ->
    (forall name f, In (name, f) before ->
                    exists found, violation f (value_of el name) = Normal found) ->
    violation field (value_of el fieldName) = Throw m ->
    completion (_handleSubmit backend el) = Throw m
    /\ effects (_handleSubmit backend el) = []
    /\ element (_handleSubmit backend el)
       = set_errors el (_errors (element (_handleSubmit backend el)))
    /\ (forall key, ~ In key (Object_keys before) ->
                    own_get key (_errors (element (_handleSubmit backend el)))
                    = own_get key (_errors el)).
Proof.
  intros engine backend el before after fieldName field m Hcovers Hwf Hs
    Hbefore Hthrow.
  assert (forall name f, In (name, f) (schema el) ->
                         own_get name (schema el) = Some f) as Hown
      by (intros; now apply In_own_get).
  set (found := map (fun '(name, f) =>
                       (name, match violation f (value_of el name) with
                              | Normal x => x
                              | Throw _ => None
                              end)) before).
  assert (validate_each before el
          = (set_errors el (fold_left record_message found (_errors el)),
             Normal tt)) as Hb.
  { apply validate_each_normal. unfold found.
    assert (forall name f, In (name, f) before -> In (name, f) (schema el))
      as Hsub by (intros; rewrite Hs; apply in_or_app; auto).
    clear found. revert Hbefore Hsub. clear Hs.
    induction before as [|[k f] rest IH]; intros Hbefore Hsub; simpl;
      constructor.
    - split; auto. exists f. split; [apply Hown, Hsub; simpl; auto|].
      destruct (Hbefore k f) as [x ->]; simpl; auto.
    - apply IH; intros; [apply Hbefore|apply Hsub]; simpl; auto. }
  assert (_validateForm el
          = (set_errors el (fold_left record_message found (_errors el)),
             Throw m)) as V.
  { unfold _validateForm, Object_entries. rewrite Hs, validate_each_app, Hb.
    cbn [validate_each].
    rewrite (_validateField_own _ fieldName field)
      by (cbn [schema set_errors]; apply Hown; rewrite Hs;
          apply in_or_app; simpl; auto).
    replace (value_of (set_errors el _) fieldName) with (value_of el fieldName)
      by reflexivity.
    rewrite Hthrow. reflexivity. }
  unfold _handleSubmit. rewrite V. cbn [completion effects element _errors set_errors].
  repeat split.
  intros key Hn. apply own_get_fold_record_message.
  unfold found. rewrite map_map.
  rewrite (map_ext _ fst) by (now intros [k f]). exact Hn.
Qed.

Lemma submit_rethrows_validation_error_witness :
  completion (_handleSubmit (engine := ReferenceEngine.engine)
                (backend_with (Normal tt)) Examples.nickname_form)
  = Throw "Cannot read properties of null (reading 'length')".
Proof.
  apply (@submit_rethrows_validation_error ReferenceEngine.engine
           (backend_with (Normal tt)) Examples.nickname_form
           [("name", Examples.text_field)] [] "nick"
           Examples.nickname_field).
  - intros key [<-|[<-|[]]]; left; reflexivity.
  - repeat constructor; simpl; intuition discriminate.
  - reflexivity.
  - intros name f [[= <- <-]|[]]. eexists. reflexivity.
  - reflexivity.
Defined.

(** ** Typing the same text again *)

Section SameInput.
Variable A : Type.

Lemma obj_set_twice key (v : A) o :
  obj_set key v (obj_set key v o) = obj_set key v o.
Proof.
  induction o as [|[k w] o IH]; simpl.
  - now rewrite String.eqb_refl.
  - destruct (String.eqb k key) eqn:E; simpl; rewrite E; congruence.
Qed.

Lemma obj_delete_twice key (o : JsObject A) :
  obj_delete key (obj_delete key o) = obj_delete key o.
Proof.
  apply obj_delete_absent. intros H. apply keys_delete in H. tauto.
Qed.

Lemma obj_delete_set key (v : A) o :
  obj_delete key (obj_set key v o) = obj_delete key o.
Proof.
  induction o as [|[k w] o IH]; simpl.
  - now rewrite String.eqb_refl.
  - destruct (String.eqb k key) eqn:E; simpl; rewrite E; congruence.
Qed.

End SameInput.

(** X20.  Handling the same input on the same field a second time changes
    nothing: the element after the second handling is the element after
    the first, and the handler completes the same way. *)
Theorem handleInput_is_idempotent :
  forall {engine : JsEngine} (el : FirebaseAutoform) (target : EventTarget)
         (fieldName : string),
    _handleInput (fst (_handleInput el target fieldName)) target fieldName
    = _handleInput el target fieldName.
Proof.
  intros engine el target fieldName. unfold _handleInput, _validateField.
  cbn [schema set_values _errors].
  destruct (schema_get (schema el) fieldName) as [field|] eqn:F;
    [|cbn [fst schema]; now rewrite F].
  destruct (violation field (extract_value field target)) as [found|m] eqn:V;
    cbn [bind fst schema set_errors set_values _values _errors];
    rewrite F, V; cbn [bind]; rewrite obj_set_twice; [|reflexivity].
  destruct found; cbn [set_errors set_values _errors _values];
    rewrite ?obj_delete_set, obj_delete_twice; reflexivity.
Qed.
